(** * Audio pipeline of [src/utils/audioUtils.ts]

    A shallow embedding of the three exported functions

      - [decode]          (base64 text to raw bytes),
      - [decodeAudioData] (raw 16-bit PCM bytes to a playback buffer),
      - [createWavBlob]   (raw PCM bytes to a RIFF/WAVE container),

    together with the part of the JavaScript platform they run on:
    ArrayBuffers living in a heap, typed-array and DataView views over
    them, [atob], and the audio context's [createBuffer].

    Conventions of the embedding.
      - A JavaScript [number] that the program only uses as an integer
        (lengths, indices, [sampleRate], [numChannels]) is a [Z]; the
        products formed from them are exact below 2^53, as they are in
        binary64.
      - A number that may be fractional, infinite or NaN ([frameCount],
        the normalised samples) is a [number] whose finite values are
        reduced fractions.
      - [undefined] and NaN operands of an integer conversion are
        [None : option Z]. *)

From Stdlib Require Import ZArith QArith Qround Lia.
From Stdlib Require Import Strings.Byte Strings.Ascii Strings.String.
From stdpp Require Import base option list gmap strings.

Local Open Scope nat_scope.

(** ** Bytes and wrap-around conversions *)

Definition byte_to_Z (b : byte) : Z := Z.of_N (Byte.to_N b).

(** The value modulo 2^8, as stored by a [Uint8Array] element write or by
    [DataView.setUint8]; [undefined] and NaN convert to 0. *)
Definition ToUint8 (v : option Z) : byte :=
  match v with
  | Some z => default x00 (Byte.of_N (Z.to_N (z mod 256)))
  | None => x00
  end.

Definition ToUint16 (v : option Z) : Z :=
  match v with Some z => (z mod 65536)%Z | None => 0%Z end.

Definition ToUint32 (v : option Z) : Z :=
  match v with Some z => (z mod 4294967296)%Z | None => 0%Z end.

(** The [n] low-order bytes of [z], least significant first. *)
Fixpoint le_bytes (n : nat) (z : Z) : list byte :=
  match n with
  | O => []
  | S n' => ToUint8 (Some z) :: le_bytes n' (z / 256)
  end.

(** The unsigned integer a byte sequence denotes, least significant byte
    first. *)
Fixpoint le_value (bs : list byte) : Z :=
  match bs with
  | [] => 0%Z
  | b :: bs' => (byte_to_Z b + 256 * le_value bs')%Z
  end.

(** Two's-complement reading of a 16-bit pattern. *)
Definition to_int16 (u : Z) : Z :=
  if (u <? 32768)%Z then u else (u - 65536)%Z.

(** ** Numbers *)

Inductive number : Type :=
| NaN
| Infinity (negative : bool)
| Finite (q : Q).

(** [a / b] for an integer-valued (or undefined) [a] and an integer [b]. *)
Definition num_div (a : option Z) (b : Z) : number :=
  match a with
  | None => NaN
  | Some a =>
      if (b =? 0)%Z then
        if (a =? 0)%Z then NaN else Infinity (a <? 0)%Z
      else Finite (Qred (inject_Z a / inject_Z b))
  end.

Definition Qtrunc (q : Q) : Z :=
  if Qle_bool 0 q then Qfloor q else Qceiling q.

(** Whether a number is an integer ([Number.isInteger]). *)
Definition is_integer (x : number) : bool :=
  match x with
  | Finite q => Qeq_bool q (inject_Z (Qfloor q))
  | _ => false
  end.

(** WebIDL conversion of a number to [unsigned long]: NaN and the
    infinities become 0, a finite value is truncated toward zero and
    reduced modulo 2^32. *)
Definition ToUnsignedLong (x : number) : Z :=
  match x with
  | Finite q => (Qtrunc q mod 4294967296)%Z
  | _ => 0%Z
  end.

(** The number of times [for (let i = 0; i < bound; i++)] runs its body
    when the bound is finite, NaN or negative infinity. *)
Definition trip_count (bound : number) : nat :=
  match bound with
  | Finite q => Z.to_nat (Qceiling q)
  | _ => 0
  end.

(** ** Exceptions, heap and the computation monad *)

Inductive Error : Type :=
| RangeError
| TypeError
| InvalidCharacterError
| NotSupportedError
| IndexSizeError.

Inductive outcome (A : Type) : Type :=
| Ok (a : A)
| Throw (e : Error)
| Diverge.

Arguments Ok {A} a.
Arguments Throw {A} e.
Arguments Diverge {A}.

Definition loc := nat.

(** The heap maps each allocated ArrayBuffer to its bytes. *)
Abbreviation Heap := (gmap loc (list byte)).

Definition M (A : Type) : Type := Heap → outcome A * Heap.

Definition ret {A} (a : A) : M A := λ h, (Ok a, h).

Definition throw {A} (e : Error) : M A := λ h, (Throw e, h).

Definition bind {A B} (f : A → M B) (m : M A) : M B :=
  λ h, match m h with
       | (Ok a, h') => f a h'
       | (Throw e, h') => (Throw e, h')
       | (Diverge, h') => (Diverge, h')
       end.

(** [x ← m; k] and [m;; k] below are sequencing in [M]. *)
#[global] Instance M_ret : MRet M := @ret.
#[global] Instance M_bind : MBind M := @bind.

(** [for (let i = start; i < start + count; i++) s = body(i, s)]; the
    loop-carried state [s] holds the locals the body assigns. *)
Fixpoint for_loop {S} (start count : nat) (body : nat → S → M S) (s : S) : M S :=
  match count with
  | O => ret s
  | Datatypes.S n => s' ← body start s; for_loop (Datatypes.S start) n body s'
  end.

(** [for (let i = 0; i < bound; i++)] with a [number] bound and a body that
    does not throw: it never ends when the bound is positive infinity. *)
Definition for_below {S} (bound : number) (body : nat → S → M S) (s : S) : M S :=
  match bound with
  | Infinity false => λ h, (Diverge, h)
  | _ => for_loop 0 (trip_count bound) body s
  end.

(** The bytes of an ArrayBuffer; a location that holds none reads as a
    buffer of length 0. *)
Definition bytes_at (h : Heap) (l : loc) : list byte := default [] (h !! l).

(** [new ArrayBuffer(n)]: a fresh zero-filled buffer. *)
Definition new_ArrayBuffer (n : nat) : M loc :=
  λ h, let l := fresh (dom h) in (Ok l, <[l := replicate n x00]> h).

(** ** Views: typed arrays and DataView *)

Module View.
Record t : Type := mk { buffer : loc; byteOffset : nat; length : nat }.
End View.

Abbreviation Uint8Array := View.t (only parsing).
Abbreviation Int16Array := View.t (only parsing).
Abbreviation DataView := View.t (only parsing).

(** The bytes a [Uint8Array] or [DataView] denotes in a heap. *)
Definition view_bytes (h : Heap) (a : View.t) : list byte :=
  take (View.length a) (drop (View.byteOffset a) (bytes_at h (View.buffer a))).

(** A view is over an allocated buffer and lies within it (an invariant
    of every [Uint8Array] the platform constructs). *)
Definition view_ok (h : Heap) (a : View.t) : Prop :=
  is_Some (h !! View.buffer a) ∧
  View.byteOffset a + View.length a ≤ List.length (bytes_at h (View.buffer a)).

#[global] Instance view_ok_dec h a : Decision (view_ok h a).
Proof. unfold view_ok. apply _. Defined.

(** [new Uint8Array(len)] *)
Definition new_Uint8Array (len : nat) : M Uint8Array :=
  l ← new_ArrayBuffer len; ret (View.mk l 0 len).

(** [new Uint8Array(buffer)]: a view of the whole buffer. *)
Definition Uint8Array_of_buffer (l : loc) : M Uint8Array :=
  λ h, (Ok (View.mk l 0 (List.length (bytes_at h l))), h).

(** [new Int16Array(buffer)]: a view of the whole buffer, in 2-byte
    elements; a buffer of odd byte length is rejected. *)
Definition Int16Array_of_buffer (l : loc) : M Int16Array :=
  λ h, let n := List.length (bytes_at h l) in
       if Nat.even n then (Ok (View.mk l 0 (n / 2)), h)
       else (Throw RangeError, h).

(** [a[i]] on a [Uint8Array]; [undefined] beyond the view. *)
Definition Uint8Array_get (a : Uint8Array) (i : nat) : M (option Z) :=
  λ h, (Ok (if decide (i < View.length a)
            then byte_to_Z <$> bytes_at h (View.buffer a) !! (View.byteOffset a + i)
            else None), h).

(** [a[i] = v] on a [Uint8Array]; ignored beyond the view. *)
Definition Uint8Array_set (a : Uint8Array) (i : nat) (v : option Z) : M unit :=
  λ h, (Ok (), if decide (i < View.length a)
               then alter (<[View.byteOffset a + i := ToUint8 v]>) (View.buffer a) h
               else h).

(** [a[i]] on an [Int16Array]: element [i] is the signed reading of bytes
    [2i] and [2i+1] of the view, in the byte order of the platform, which
    is little-endian wherever the program runs and is the order the
    specification prescribes; [undefined] for an index that is negative
    or beyond the view. *)
Definition Int16Array_get (a : Int16Array) (i : Z) : M (option Z) :=
  λ h, (Ok (if decide (0 ≤ i < Z.of_nat (View.length a))%Z
            then
              let bs := bytes_at h (View.buffer a) in
              lo ← bs !! (View.byteOffset a + 2 * Z.to_nat i);
              hi ← bs !! (View.byteOffset a + 2 * Z.to_nat i + 1);
              Some (to_int16 (le_value [lo; hi]))
            else None), h).

(** [new DataView(buffer)] *)
Definition new_DataView (l : loc) : M DataView :=
  λ h, (Ok (View.mk l 0 (List.length (bytes_at h l))), h).

(** Overwrite [List.length data] bytes of [bs] from index [off]. *)
Fixpoint store_bytes (bs : list byte) (off : nat) (data : list byte) : list byte :=
  match data with
  | [] => bs
  | b :: data' => store_bytes (<[off := b]> bs) (Datatypes.S off) data'
  end.

(** A DataView write of [data] at [byteOffset]: RangeError when it does
    not fit in the view. *)
Definition DataView_store (view : DataView) (byteOffset : nat) (data : list byte) : M unit :=
  λ h, if decide (byteOffset + List.length data ≤ View.length view)
       then (Ok (), alter (λ bs, store_bytes bs (View.byteOffset view + byteOffset) data)
                          (View.buffer view) h)
       else (Throw RangeError, h).

Definition endian (littleEndian : bool) (bs : list byte) : list byte :=
  if littleEndian then bs else reverse bs.

Definition setUint8 (view : DataView) (byteOffset : nat) (value : option Z) : M unit :=
  DataView_store view byteOffset [ToUint8 value].

Definition setUint16 (view : DataView) (byteOffset : nat) (value : option Z)
    (littleEndian : bool) : M unit :=
  DataView_store view byteOffset (endian littleEndian (le_bytes 2 (ToUint16 value))).

Definition setUint32 (view : DataView) (byteOffset : nat) (value : option Z)
    (littleEndian : bool) : M unit :=
  DataView_store view byteOffset (endian littleEndian (le_bytes 4 (ToUint32 value))).

(** Reading back, as a WAV consumer does. *)
Definition getUint16 (bs : list byte) (byteOffset : nat) : Z :=
  le_value (take 2 (drop byteOffset bs)).

Definition getUint32 (bs : list byte) (byteOffset : nat) : Z :=
  le_value (take 4 (drop byteOffset bs)).

(** ** Strings *)

(** [str.charCodeAt(i)]; NaN beyond the end. *)
Definition charCodeAt (str : string) (i : nat) : option Z :=
  (λ c, Z.of_N (N_of_ascii c)) <$> String.get i str.

Definition byte_to_ascii (b : byte) : ascii := ascii_of_N (Byte.to_N b).

(** The binary string whose code units are the given bytes. *)
Definition binary_string (bs : list byte) : string :=
  string_of_list_ascii (byte_to_ascii <$> bs).

(** The code units of a literal, as bytes. *)
Definition ascii_bytes (s : string) : list byte :=
  (λ c, ToUint8 (Some (Z.of_N (N_of_ascii c)))) <$> list_ascii_of_string s.

(** ** [atob]: the platform's forgiving base64 decoder

    Transcribed from the WHATWG Infra standard ("forgiving-base64
    decode"), which [atob] applies to its argument; a failure surfaces as
    an [InvalidCharacterError]. Code units above 255 are not base64
    characters, so the argument is taken as a string of 8-bit characters. *)

Definition base64_alphabet : string :=
  "ABCDEFGHIJKLMNOPQRSTUVWXYZabcdefghijklmnopqrstuvwxyz0123456789+/".

(** The character of a 6-bit value. *)
Definition base64_char (s : Z) : ascii :=
  default "A"%char (String.get (Z.to_nat s) base64_alphabet).

(** The 6-bit value of a base64 character. *)
Definition base64_value (c : ascii) : option Z :=
  let n := Z.of_N (N_of_ascii c) in
  if (65 <=? n)%Z && (n <=? 90)%Z then Some (n - 65)%Z
  else if (97 <=? n)%Z && (n <=? 122)%Z then Some (n - 71)%Z
  else if (48 <=? n)%Z && (n <=? 57)%Z then Some (n + 4)%Z
  else if (n =? 43)%Z then Some 62%Z
  else if (n =? 47)%Z then Some 63%Z
  else None.

Definition is_ascii_whitespace (c : ascii) : bool :=
  let n := N_of_ascii c in
  ((n =? 9) || (n =? 10) || (n =? 12) || (n =? 13) || (n =? 32))%N.

Definition is_pad (c : ascii) : bool := Ascii.eqb c "="%char.

(** Remove one or two trailing "=" characters. *)
Fixpoint strip_padding (data : list ascii) : list ascii :=
  match data with
  | [] => []
  | c :: rest =>
      match rest with
      | [] => if is_pad c then [] else [c]
      | [d] => if is_pad c && is_pad d then [] else c :: strip_padding rest
      | _ => c :: strip_padding rest
      end
  end.

(** Four 6-bit values give three bytes; a final group of three gives two
    bytes (its last two bits are discarded), a final group of two gives
    one byte (its last four bits are discarded). *)
Fixpoint decode_sextets (l : list Z) : list byte :=
  match l with
  | a :: b :: c :: d :: rest =>
      let n := (((a * 64 + b) * 64 + c) * 64 + d)%Z in
      ToUint8 (Some (n / 65536)%Z) :: ToUint8 (Some (n / 256)%Z) :: ToUint8 (Some n)
        :: decode_sextets rest
  | [a; b; c] =>
      let n := (((a * 64 + b) * 64 + c) / 4)%Z in
      [ToUint8 (Some (n / 256)%Z); ToUint8 (Some n)]
  | [a; b] => [ToUint8 (Some ((a * 64 + b) / 16)%Z)]
  | _ => []
  end.

Definition forgiving_base64_decode (data : list ascii) : option (list byte) :=
  let data := List.filter (λ c, negb (is_ascii_whitespace c)) data in
  let data := if decide (List.length data mod 4 = 0) then strip_padding data else data in
  if decide (List.length data mod 4 = 1) then None
  else decode_sextets <$> mapM base64_value data.

Definition atob (data : string) : M string :=
  match forgiving_base64_decode (list_ascii_of_string data) with
  | Some bs => ret (binary_string bs)
  | None => throw InvalidCharacterError
  end.

(** ** The reference encoder (RFC 4648, section 4), used to state the
    round trip *)

Fixpoint base64_chars (X : list byte) : list ascii :=
  match X with
  | [] => []
  | [a] =>
      let n := (byte_to_Z a * 16)%Z in
      [base64_char (n / 64); base64_char (n mod 64); "="%char; "="%char]
  | [a; b] =>
      let n := ((byte_to_Z a * 256 + byte_to_Z b) * 4)%Z in
      [base64_char (n / 4096); base64_char (n / 64 mod 64); base64_char (n mod 64);
       "="%char]
  | a :: b :: c :: rest =>
      let n := ((byte_to_Z a * 256 + byte_to_Z b) * 256 + byte_to_Z c)%Z in
      base64_char (n / 262144) :: base64_char (n / 4096 mod 64)
        :: base64_char (n / 64 mod 64) :: base64_char (n mod 64) :: base64_chars rest
  end.

Definition base64Encode (X : list byte) : string :=
  string_of_list_ascii (base64_chars X).

(** ** Audio buffers and the audio context *)

(** An [AudioBuffer] owns one [Float32Array] per channel. A stored value
    is rounded to binary32; every value this program stores is NaN or
    k/32768 with |k| <= 32768, which binary32 holds exactly (lemma
    [normalise_binary32]), so the stored value is the value computed. *)
Record AudioBuffer : Type := mkAudioBuffer {
  ab_sampleRate : Z;
  ab_length : nat;
  ab_channels : list (list number)
}.

Definition numberOfChannels (b : AudioBuffer) : nat := List.length (ab_channels b).

(** The audio context, as far as this program uses it. *)
Record AudioContext : Type := mkAudioContext {
  createBuffer : Z → number → Z → M AudioBuffer
}.

(** [buffer.getChannelData(channel)] returns a [Float32Array] that aliases
    the channel's storage inside the buffer; the alias is represented by
    the channel index. *)
Definition getChannelData (b : AudioBuffer) (channel : nat) : M nat :=
  if decide (channel < numberOfChannels b) then ret channel else throw IndexSizeError.

(** [channelData[i] = v] through such an alias; ignored beyond the array. *)
Definition Float32Array_set (b : AudioBuffer) (channelData : nat) (i : nat) (v : number)
    : AudioBuffer :=
  mkAudioBuffer (ab_sampleRate b) (ab_length b)
    (alter (λ samples, <[i := v]> samples) channelData (ab_channels b)).

(** What the Web Audio API asks of [createBuffer]: it touches no
    ArrayBuffer of the script, its outcome depends on its arguments only,
    a buffer it returns has the requested sample rate and channel count
    and [ToUnsignedLong length] zero frames per channel, arguments in
    the ranges every implementation supports are accepted, and a channel
    count, length or sample rate that is zero or negative is refused with
    a NotSupportedError. *)
Record Conformant (ctx : AudioContext) : Prop := {
  createBuffer_heap : ∀ nc len sr h, (createBuffer ctx nc len sr h).2 = h;
  createBuffer_pure : ∀ nc len sr h h',
    (createBuffer ctx nc len sr h).1 = (createBuffer ctx nc len sr h').1;
  createBuffer_halts : ∀ nc len sr h, (createBuffer ctx nc len sr h).1 ≠ Diverge;
  createBuffer_shape : ∀ nc len sr h b,
    (createBuffer ctx nc len sr h).1 = Ok b →
    ab_sampleRate b = sr ∧
    ab_length b = Z.to_nat (ToUnsignedLong len) ∧
    ab_channels b =
      replicate (Z.to_nat nc) (replicate (Z.to_nat (ToUnsignedLong len)) (Finite 0));
  createBuffer_accepts : ∀ nc len sr h,
    (1 ≤ nc ≤ 32)%Z → (1 ≤ ToUnsignedLong len)%Z → (8000 ≤ sr ≤ 96000)%Z →
    ∃ b, (createBuffer ctx nc len sr h).1 = Ok b;
  createBuffer_rejects : ∀ nc len sr h,
    (nc ≤ 0 ∨ ToUnsignedLong len = 0 ∨ sr ≤ 0)%Z →
    (createBuffer ctx nc len sr h).1 = Throw NotSupportedError
}.

(** A reference context: it accepts exactly the ranges every
    implementation must support. *)
Definition webAudio_createBuffer (nc : Z) (len : number) (sr : Z) : M AudioBuffer :=
  let n := Z.to_nat (ToUnsignedLong len) in
  if decide ((1 ≤ nc ≤ 32)%Z ∧ 1 ≤ n ∧ (8000 ≤ sr ≤ 96000)%Z)
  then ret (mkAudioBuffer sr n (replicate (Z.to_nat nc) (replicate n (Finite 0))))
  else throw NotSupportedError.

Definition webAudio : AudioContext := mkAudioContext webAudio_createBuffer.

(** ** Blobs *)

Record Blob : Type := mkBlob { blob_bytes : list byte; blob_type : string }.

(** [new Blob([view], { type })]: a copy of the bytes the view denotes. *)
Definition new_Blob (view : DataView) (type : string) : M Blob :=
  λ h, (Ok (mkBlob (view_bytes h view) type), h).

(** ** The program *)

(** [decode], lines 7-15. *)
Definition decode (base64 : string) : M Uint8Array :=
  binaryString ← atob base64;
  let len := String.length binaryString in
  bytes ← new_Uint8Array len;
  for_loop 0 len (λ i _, Uint8Array_set bytes i (charCodeAt binaryString i)) ();;
  mret bytes.

(** [decodeAudioData], lines 26-49. The arguments [sampleRate] and
    [numChannels] are optional and default to 24000 and 1. The promise
    the function returns is settled by the outcome of this computation. *)
Definition decodeAudioData (data : Uint8Array) (ctx : AudioContext)
    (sampleRate numChannels : option Z) : M AudioBuffer :=
  let sampleRate := default 24000%Z sampleRate in
  let numChannels := default 1%Z numChannels in
  dataInt16 ← Int16Array_of_buffer (View.buffer data);
  let frameCount := num_div (Some (Z.of_nat (View.length dataInt16))) numChannels in
  buffer ← createBuffer ctx numChannels frameCount sampleRate;
  for_loop 0 (Z.to_nat numChannels) (λ channel buffer,
    channelData ← getChannelData buffer channel;
    for_below frameCount (λ i buffer,
      sample ← Int16Array_get dataInt16 (Z.of_nat i * numChannels + Z.of_nat channel);
      mret (Float32Array_set buffer channelData i (num_div sample 32768))) buffer) buffer.

(** The local function [writeString] of [createWavBlob], lines 64-68. *)
Definition writeString (view : DataView) (offset : nat) (str : string) : M unit :=
  for_loop 0 (String.length str)
    (λ i _, setUint8 view (offset + i) (charCodeAt str i)) ().

(** [createWavBlob], lines 58-96. *)
Definition createWavBlob (pcmData : Uint8Array) (sampleRate numChannels : Z) : M Blob :=
  let bitsPerSample := 16%Z in
  let dataSize := View.length pcmData in
  buffer ← new_ArrayBuffer (44 + dataSize);
  view ← new_DataView buffer;
  writeString view 0 "RIFF";;
  setUint32 view 4 (Some (36 + Z.of_nat dataSize)%Z) true;;
  writeString view 8 "WAVE";;
  writeString view 12 "fmt ";;
  setUint32 view 16 (Some 16%Z) true;;
  setUint16 view 20 (Some 1%Z) true;;
  setUint16 view 22 (Some numChannels) true;;
  setUint32 view 24 (Some sampleRate) true;;
  setUint32 view 28 (Some (sampleRate * numChannels * (bitsPerSample / 8))%Z) true;;
  setUint16 view 32 (Some (numChannels * (bitsPerSample / 8))%Z) true;;
  setUint16 view 34 (Some bitsPerSample) true;;
  writeString view 36 "data";;
  setUint32 view 40 (Some (Z.of_nat dataSize)) true;;
  pcmAsUint8 ← Uint8Array_of_buffer (View.buffer pcmData);
  for_loop 0 dataSize (λ i _,
    v ← Uint8Array_get pcmAsUint8 i; setUint8 view (44 + i) v) ();;
  new_Blob view "audio/wav".

(** ** The container layout in the words of the specification

    The 44-byte canonical header of section 4.3, field by field, each
    value in the width of its field. *)

Definition wav_header (dataSize : nat) (sampleRate numChannels : Z) : list byte :=
  ascii_bytes "RIFF"
  ++ le_bytes 4 (ToUint32 (Some (36 + Z.of_nat dataSize)%Z))
  ++ ascii_bytes "WAVE"
  ++ ascii_bytes "fmt "
  ++ le_bytes 4 16
  ++ le_bytes 2 1
  ++ le_bytes 2 (ToUint16 (Some numChannels))
  ++ le_bytes 4 (ToUint32 (Some sampleRate))
  ++ le_bytes 4 (ToUint32 (Some (sampleRate * numChannels * 2)%Z))
  ++ le_bytes 2 (ToUint16 (Some (numChannels * 2)%Z))
  ++ le_bytes 2 16
  ++ ascii_bytes "data"
  ++ le_bytes 4 (ToUint32 (Some (Z.of_nat dataSize))).

(** The header as a WAV reader sees it: the fields of the table of
    section 4.3, read from their offsets. *)
Record WavHeader : Type := mkWavHeader {
  ChunkID : list byte;
  ChunkSize : Z;
  Format : list byte;
  Subchunk1ID : list byte;
  Subchunk1Size : Z;
  AudioFormat : Z;
  NumChannels : Z;
  SampleRate : Z;
  ByteRate : Z;
  BlockAlign : Z;
  BitsPerSample : Z;
  Subchunk2ID : list byte;
  Subchunk2Size : Z
}.

Definition read_header (b : list byte) : WavHeader :=
  {| ChunkID := take 4 b;
     ChunkSize := getUint32 b 4;
     Format := take 4 (drop 8 b);
     Subchunk1ID := take 4 (drop 12 b);
     Subchunk1Size := getUint32 b 16;
     AudioFormat := getUint16 b 20;
     NumChannels := getUint16 b 22;
     SampleRate := getUint32 b 24;
     ByteRate := getUint32 b 28;
     BlockAlign := getUint16 b 32;
     BitsPerSample := getUint16 b 34;
     Subchunk2ID := take 4 (drop 36 b);
     Subchunk2Size := getUint32 b 40 |}.

(** The signed 16-bit sample at index [k] of a byte sequence read as
    little-endian 16-bit PCM. *)
Definition pcm_sample (bs : list byte) (k : nat) : option Z :=
  lo ← bs !! (2 * k); hi ← bs !! (2 * k + 1); Some (to_int16 (le_value [lo; hi])).

(** The normalised value of a sample. *)
Definition normalise (v : Z) : number := Finite (Qred (v # 32768)).

(** Channel [c] of the first [frames] frames of interleaved PCM bytes. *)
Definition pcm_channel (bs : list byte) (numChannels frames c : nat) : list number :=
  (λ i, num_div (pcm_sample bs (i * numChannels + c)) 32768) <$> seq 0 frames.

(** The outcome of [decodeAudioData] in closed form, as a function of the
    bytes under its input, the sample rate and the channel count: an odd
    byte count is a RangeError, what the context answers to the request
    for the buffer decides between a buffer and an exception, and a buffer
    holds the de-interleaved, normalised frames it has room for. The
    lemma [decodeAudioData_decoded] shows that the code computes it. *)
Definition decoded (ctx : AudioContext) (bs : list byte)
    (sampleRate numChannels : option Z) : outcome AudioBuffer :=
  let sr := default 24000%Z sampleRate in
  let nc := default 1%Z numChannels in
  if Nat.even (List.length bs) then
    let frameCount := num_div (Some (Z.of_nat (List.length bs / 2))) nc in
    match (createBuffer ctx nc frameCount sr ∅).1 with
    | Ok _ =>
        let frames := Z.to_nat (ToUnsignedLong frameCount) in
        Ok (mkAudioBuffer sr frames
              ((λ c, pcm_channel bs (Z.to_nat nc) frames c) <$> seq 0 (Z.to_nat nc)))
    | Throw e => Throw e
    | Diverge => Diverge
    end
  else Throw RangeError.

(** ** Sample inputs

    The scenario of section 8: the samples 0 and 32767 in an array that
    covers its buffer. *)

Definition scenario_heap : Heap := {[ 0 := [x00; x00; xff; x7f] ]}.

Definition scenario_bytes : Uint8Array := View.mk 0 0 4.

(** The last two bytes of a four-byte buffer, as [subarray(2)] gives them. *)
Definition shared_heap : Heap := {[ 0 := [x01; x02; x03; x04] ]}.

Definition tail_view : Uint8Array := View.mk 0 2 2.

(** An empty array. *)
Definition empty_heap : Heap := {[ 0 := [] ]}.

Definition empty_bytes : Uint8Array := View.mk 0 0 0.

(** One stereo frame followed by one more sample (six bytes), and one
    mono sample followed by one more byte (three bytes). *)
Definition ragged_heap : Heap := {[ 0 := [x00; x00; xff; x7f; x00; x80] ]}.

Definition ragged_bytes : Uint8Array := View.mk 0 0 6.

Definition odd_heap : Heap := {[ 0 := [x00; x00; xff] ]}.

Definition odd_bytes : Uint8Array := View.mk 0 0 3.

(** * Proofs *)

(** ** Bytes *)

Lemma byte_to_Z_range (b : byte) : (0 ≤ byte_to_Z b < 256)%Z.
Proof.
  unfold byte_to_Z. pose proof (Byte.to_N_bounded b). lia.
Qed.

Lemma ToUint8_byte_to_Z (b : byte) : ToUint8 (Some (byte_to_Z b)) = b.
Proof.
  unfold ToUint8. pose proof (byte_to_Z_range b) as Hb.
  rewrite Z.mod_small by done. unfold byte_to_Z.
  rewrite N2Z.id, Byte.of_to_N. done.
Qed.

Lemma byte_to_Z_ToUint8 (z : Z) : byte_to_Z (ToUint8 (Some z)) = (z mod 256)%Z.
Proof.
  unfold ToUint8, byte_to_Z.
  pose proof (Z.mod_pos_bound z 256 ltac:(lia)) as Hz.
  destruct (Byte.of_N (Z.to_N (z mod 256))) as [b|] eqn:E.
  - apply Byte.to_of_N in E. simpl. rewrite E. lia.
  - apply Byte.of_N_None_iff in E. lia.
Qed.

Lemma length_le_bytes n z : List.length (le_bytes n z) = n.
Proof. revert z. induction n as [|n IH]; intros z; simpl; [done|]. by rewrite IH. Qed.

Lemma le_value_le_bytes n z : le_value (le_bytes n z) = (z mod 256 ^ Z.of_nat n)%Z.
Proof.
  revert z. induction n as [|n IH]; intros z.
  - simpl. by rewrite Z.mod_1_r.
  - cbn [le_bytes le_value]. rewrite byte_to_Z_ToUint8, IH.
    rewrite Nat2Z.inj_succ, Z.pow_succ_r by lia.
    rewrite (Z.rem_mul_r z 256 (256 ^ Z.of_nat n)) by lia. lia.
Qed.

(** ** Running computations *)

Lemma bind_run {A B} (m : M A) (f : A → M B) (h : Heap) :
  (m ≫= f) h =
  match m h with
  | (Ok a, h') => f a h'
  | (Throw e, h') => (Throw e, h')
  | (Diverge, h') => (Diverge, h')
  end.
Proof. reflexivity. Qed.

Lemma bind_Ok {A B} (m : M A) (f : A → M B) (h h' : Heap) (a : A) :
  m h = (Ok a, h') → (m ≫= f) h = f a h'.
Proof. intros E. by rewrite bind_run, E. Qed.

Lemma bytes_at_insert (l : loc) (bs : list byte) (h : Heap) :
  bytes_at (<[l:=bs]> h) l = bs.
Proof. unfold bytes_at. by rewrite lookup_insert_eq. Qed.

Lemma bytes_at_insert_ne (l l' : loc) (bs : list byte) (h : Heap) :
  l ≠ l' → bytes_at (<[l:=bs]> h) l' = bytes_at h l'.
Proof. intros Hne. unfold bytes_at. by rewrite lookup_insert_ne. Qed.

Lemma fresh_loc_ne (h : Heap) (l : loc) : is_Some (h !! l) → fresh (dom h) ≠ l.
Proof.
  intros Hl E. apply (is_fresh (dom h)). rewrite E. by apply elem_of_dom.
Qed.

Lemma length_store_bytes (data bs : list byte) (off : nat) :
  List.length (store_bytes bs off data) = List.length bs.
Proof.
  revert bs off. induction data as [|b data IH]; intros bs off; simpl; [done|].
  by rewrite IH, length_insert.
Qed.

Lemma store_bytes_cons (data bs : list byte) (x : byte) (off : nat) :
  store_bytes (x :: bs) (S off) data = x :: store_bytes bs off data.
Proof.
  revert bs off. induction data as [|b data IH]; intros bs off; simpl; [done|].
  by rewrite IH.
Qed.

Lemma store_bytes_all (data bs : list byte) :
  List.length data = List.length bs → store_bytes bs 0 data = data.
Proof.
  revert bs. induction data as [|b data IH]; intros [|x bs] Hlen; simpl in *; try done.
  rewrite store_bytes_cons, IH; [done|lia].
Qed.

Lemma store_bytes_app (pre old data : list byte) :
  List.length data = List.length old →
  store_bytes (pre ++ old) (List.length pre) data = pre ++ data.
Proof.
  intros Hlen. induction pre as [|x pre IH]; simpl.
  - by apply store_bytes_all.
  - by rewrite store_bytes_cons, IH.
Qed.

Lemma charCodeAt_bytes (str : string) (i : nat) :
  i < String.length str →
  ascii_bytes str !! i = Some (ToUint8 (charCodeAt str i)).
Proof.
  revert i. induction str as [|c str IH]; intros i Hi; simpl in *; [lia|].
  destruct i as [|i]; [done|]. unfold charCodeAt. simpl.
  apply IH. lia.
Qed.

Lemma length_ascii_bytes (str : string) :
  List.length (ascii_bytes str) = String.length str.
Proof.
  unfold ascii_bytes. rewrite length_fmap.
  induction str as [|c str IH]; simpl; [done|]. by rewrite IH.
Qed.

Lemma fmap_seq_lookup {A} (xs : list A) (f : nat → A) :
  (∀ i, i < List.length xs → xs !! i = Some (f i)) →
  f <$> seq 0 (List.length xs) = xs.
Proof.
  intros Hf. apply list_eq. intros i.
  rewrite list_lookup_fmap.
  destruct (decide (i < List.length xs)) as [Hi|Hi].
  - rewrite lookup_seq_lt by done. simpl. by rewrite Hf.
  - rewrite lookup_seq_ge by lia. simpl. symmetry. apply lookup_ge_None. lia.
Qed.

(** Writes through a [DataView] over the whole of a buffer [l] of length
    [len], in a heap where [l] holds [bs]. *)
Section local_buffer.
Context (l : loc) (h : Heap) (len : nat).

Lemma DataView_store_run (off : nat) (data bs : list byte) :
  List.length bs = len → off + List.length data ≤ len →
  DataView_store (View.mk l 0 len) off data (<[l:=bs]> h)
  = (Ok (), <[l := store_bytes bs off data]> h).
Proof.
  intros Hbs Hfit. unfold DataView_store. simpl.
  rewrite decide_True by done. by rewrite alter_insert_eq.
Qed.

Lemma setUint8_run (off : nat) (v : option Z) (bs : list byte) :
  List.length bs = len → off < len →
  setUint8 (View.mk l 0 len) off v (<[l:=bs]> h)
  = (Ok (), <[l := <[off := ToUint8 v]> bs]> h).
Proof.
  intros Hbs Hfit. unfold setUint8.
  rewrite DataView_store_run; [done|done|simpl; lia].
Qed.

Lemma setUint16_run (off : nat) (v : option Z) (bs : list byte) :
  List.length bs = len → off + 2 ≤ len →
  setUint16 (View.mk l 0 len) off v true (<[l:=bs]> h)
  = (Ok (), <[l := store_bytes bs off (le_bytes 2 (ToUint16 v))]> h).
Proof.
  intros Hbs Hfit. unfold setUint16, endian.
  rewrite DataView_store_run; [done|done|]. by rewrite length_le_bytes.
Qed.

Lemma setUint32_run (off : nat) (v : option Z) (bs : list byte) :
  List.length bs = len → off + 4 ≤ len →
  setUint32 (View.mk l 0 len) off v true (<[l:=bs]> h)
  = (Ok (), <[l := store_bytes bs off (le_bytes 4 (ToUint32 v))]> h).
Proof.
  intros Hbs Hfit. unfold setUint32, endian.
  rewrite DataView_store_run; [done|done|]. by rewrite length_le_bytes.
Qed.

(** A loop whose [i]-th iteration stores [w i] at index [off + i] of the
    buffer fills a contiguous range. *)
Lemma for_loop_fill (off : nat) (w : nat → byte) (body : nat → unit → M unit) :
  ∀ count start bs,
    (∀ i bs', start ≤ i < start + count → List.length bs' = len →
       body i () (<[l:=bs']> h) = (Ok (), <[l := <[off + i := w i]> bs']> h)) →
    List.length bs = len →
    for_loop start count body () (<[l:=bs]> h)
    = (Ok (), <[l := store_bytes bs (off + start) (w <$> seq start count)]> h).
Proof.
  induction count as [|count IH]; intros start bs Hbody Hbs; [done|].
  cbn [for_loop seq fmap list_fmap store_bytes].
  erewrite bind_Ok; [|apply Hbody; [lia|done]].
  rewrite IH.
  - by rewrite Nat.add_succ_r.
  - intros i bs' Hi Hbs'. apply Hbody; [lia|done].
  - by rewrite length_insert.
Qed.

Lemma writeString_run (off : nat) (str : string) (bs : list byte) :
  List.length bs = len → off + String.length str ≤ len →
  writeString (View.mk l 0 len) off str (<[l:=bs]> h)
  = (Ok (), <[l := store_bytes bs off (ascii_bytes str)]> h).
Proof.
  intros Hbs Hfit. unfold writeString.
  rewrite (for_loop_fill off (λ i, ToUint8 (charCodeAt str i))); [|
    intros i bs' Hi Hbs'; apply setUint8_run; [done|lia] | done].
  rewrite Nat.add_0_r. do 3 f_equal.
  rewrite <- length_ascii_bytes. apply fmap_seq_lookup.
  intros i Hi. apply charCodeAt_bytes. by rewrite <- length_ascii_bytes.
Qed.

End local_buffer.

(** ** [createWavBlob] *)

Lemma take_as_fmap_seq (bs : list byte) (n : nat) :
  n ≤ List.length bs →
  (λ i, ToUint8 (byte_to_Z <$> bs !! i)) <$> seq 0 n = take n bs.
Proof.
  intros Hn.
  rewrite <- (fmap_seq_lookup (take n bs) (λ i, ToUint8 (byte_to_Z <$> bs !! i))).
  - by rewrite length_take_le.
  - intros i Hi. rewrite length_take_le in Hi by done.
    rewrite lookup_take_lt by done.
    destruct (lookup_lt_is_Some_2 bs i ltac:(lia)) as [b Hb].
    rewrite Hb. f_equal. symmetry. apply ToUint8_byte_to_Z.
Qed.

Lemma header_stores (n : nat) (sr ch : Z) :
  store_bytes (store_bytes (store_bytes (store_bytes (store_bytes (store_bytes
  (store_bytes (store_bytes (store_bytes (store_bytes (store_bytes (store_bytes
  (store_bytes (replicate (44 + n) x00)
    0 (ascii_bytes "RIFF"))
    4 (le_bytes 4 (ToUint32 (Some (36 + Z.of_nat n)%Z))))
    8 (ascii_bytes "WAVE"))
    12 (ascii_bytes "fmt "))
    16 (le_bytes 4 (ToUint32 (Some 16%Z))))
    20 (le_bytes 2 (ToUint16 (Some 1%Z))))
    22 (le_bytes 2 (ToUint16 (Some ch))))
    24 (le_bytes 4 (ToUint32 (Some sr))))
    28 (le_bytes 4 (ToUint32 (Some (sr * ch * (16 / 8))%Z))))
    32 (le_bytes 2 (ToUint16 (Some (ch * (16 / 8))%Z))))
    34 (le_bytes 2 (ToUint16 (Some 16%Z))))
    36 (ascii_bytes "data"))
    40 (le_bytes 4 (ToUint32 (Some (Z.of_nat n))))
  = wav_header n sr ch ++ replicate n x00.
Proof.
  unfold wav_header.
  change (16 / 8)%Z with 2%Z.
  change (ToUint32 (Some 16%Z)) with 16%Z.
  change (ToUint16 (Some 16%Z)) with 16%Z.
  change (ToUint16 (Some 1%Z)) with 1%Z.
  generalize (ToUint32 (Some (36 + Z.of_nat n)%Z)) (ToUint16 (Some ch))
    (ToUint32 (Some sr)) (ToUint32 (Some (sr * ch * 2)%Z))
    (ToUint16 (Some (ch * 2)%Z)) (ToUint32 (Some (Z.of_nat n))).
  intros f1 f2 f3 f4 f5 f6.
  (let r := eval vm_compute in (ascii_bytes "RIFF") in change (ascii_bytes "RIFF") with r).
  (let r := eval vm_compute in (ascii_bytes "WAVE") in change (ascii_bytes "WAVE") with r).
  (let r := eval vm_compute in (ascii_bytes "fmt ") in change (ascii_bytes "fmt ") with r).
  (let r := eval vm_compute in (ascii_bytes "data") in change (ascii_bytes "data") with r).
  cbn [le_bytes].
  generalize (ToUint8 (Some 16%Z)) (ToUint8 (Some (16 / 256)%Z))
    (ToUint8 (Some 1%Z)) (ToUint8 (Some (1 / 256)%Z)).
  intros. reflexivity.
Qed.

Ltac header_step :=
  erewrite bind_Ok;
  [| first [apply writeString_run | apply setUint32_run | apply setUint16_run];
     [by rewrite ?length_store_bytes, ?length_replicate | simpl; lia]].

Lemma length_wav_header (n : nat) (sr ch : Z) : List.length (wav_header n sr ch) = 44.
Proof. unfold wav_header. by rewrite !length_app, !length_le_bytes, !length_ascii_bytes. Qed.

(** The blob is the header followed by the first [dataSize] bytes of the
    buffer underlying [pcmData]; the only heap effect is the allocation of
    the work buffer. *)
Lemma createWavBlob_run (pcmData : View.t) (sr ch : Z) (h : Heap) :
  view_ok h pcmData →
  let wav := wav_header (View.length pcmData) sr ch
             ++ take (View.length pcmData) (bytes_at h (View.buffer pcmData)) in
  createWavBlob pcmData sr ch h = (Ok (mkBlob wav "audio/wav"), <[fresh (dom h) := wav]> h).
Proof.
  intros [Halloc Hfit] wav. subst wav.
  set (n := View.length pcmData) in *.
  set (l0 := View.buffer pcmData) in *.
  unfold createWavBlob. fold n l0.
  rewrite bind_run. unfold new_ArrayBuffer.
  set (l := fresh (dom h)).
  assert (l ≠ l0) as Hne by (by apply fresh_loc_ne).
  rewrite bind_run. unfold new_DataView.
  rewrite bytes_at_insert, length_replicate.
  do 13 header_step.
  rewrite header_stores.
  rewrite bind_run. unfold Uint8Array_of_buffer.
  rewrite bytes_at_insert_ne by done.
  set (bs0 := bytes_at h l0) in *.
  erewrite bind_Ok; cycle 1.
  { apply (for_loop_fill l h (44 + n) 44 (λ i, ToUint8 (byte_to_Z <$> bs0 !! i))).
    - intros i bs' Hi Hbs'. rewrite bind_run. unfold Uint8Array_get. simpl View.length.
      rewrite decide_True by lia. simpl View.buffer. simpl View.byteOffset.
      rewrite bytes_at_insert_ne by done. fold bs0.
      apply setUint8_run; [done|lia].
    - rewrite length_app, length_replicate. done. }
  rewrite take_as_fmap_seq by lia.
  rewrite Nat.add_0_r.
  pose proof (length_wav_header n sr ch) as Hhdr.
  rewrite <- Hhdr at 2.
  rewrite store_bytes_app by (by rewrite length_take_le, length_replicate by lia).
  unfold new_Blob, view_bytes. simpl View.buffer. simpl View.byteOffset. simpl View.length.
  rewrite bytes_at_insert, drop_0, take_ge; [done|].
  rewrite length_app, Hhdr, length_take_le by lia. done.
Qed.

(** ** Base64: [atob] inverts the reference encoder *)

Lemma ToUint8_eq (z : Z) (b : byte) : (z mod 256 = byte_to_Z b)%Z → ToUint8 (Some z) = b.
Proof.
  intros E. rewrite <- (ToUint8_byte_to_Z b). unfold ToUint8.
  by rewrite E, (Z.mod_small (byte_to_Z b)) by apply byte_to_Z_range.
Qed.

Lemma base64_char_value (s : Z) :
  (0 ≤ s < 64)%Z →
  base64_value (base64_char s) = Some s ∧
  is_ascii_whitespace (base64_char s) = false ∧
  is_pad (base64_char s) = false.
Proof.
  intros Hs. rewrite <- (Z2Nat.id s) by lia.
  assert (Z.to_nat s < 64) as Hk by lia.
  generalize dependent (Z.to_nat s). clear s Hs. intros k Hk.
  do 64 (destruct k as [|k]; [by vm_compute|]). lia.
Qed.

Lemma list_ind3 {A} (P : list A → Prop) :
  P [] → (∀ a, P [a]) → (∀ a b, P [a; b]) →
  (∀ a b c l, P l → P (a :: b :: c :: l)) →
  ∀ l, P l.
Proof.
  intros H0 H1 H2 H3 l.
  assert (P l ∧ (∀ a, P (a :: l)) ∧ (∀ a b, P (a :: b :: l))) as [? _]; [|done].
  induction l as [|x l (IH0 & IH1 & IH2)]; [by auto|].
  split; [apply IH1|]. split; [intros a; apply IH2|].
  intros a b. by apply H3.
Qed.

Lemma strip_padding_group (c1 c2 c3 c4 : ascii) (r : list ascii) :
  is_pad c4 = false → List.length r ≠ 1 →
  strip_padding (c1 :: c2 :: c3 :: c4 :: r) = c1 :: c2 :: c3 :: c4 :: strip_padding r.
Proof.
  intros Hc4 Hr. destruct r as [|d [|e r]]; simpl in *; try done.
  by rewrite Hc4, andb_false_r.
Qed.

(** The three shapes of a group, as arithmetic on the 24-, 16- and 8-bit
    values. *)
Ltac byte_arith :=
  repeat match goal with
         | b : byte |- _ =>
             pose proof (byte_to_Z_range b);
             generalize dependent (byte_to_Z b); clear b; intros
         end;
  Z.to_euclidean_division_equations; lia.

Lemma group3_sextets (a b c : byte) :
  let n := ((byte_to_Z a * 256 + byte_to_Z b) * 256 + byte_to_Z c)%Z in
  (0 ≤ n / 262144 < 64 ∧ 0 ≤ n / 4096 mod 64 < 64 ∧
   0 ≤ n / 64 mod 64 < 64 ∧ 0 ≤ n mod 64 < 64)%Z.
Proof. cbv zeta. repeat split; byte_arith. Qed.

Lemma group3_bytes (a b c : byte) :
  let n := ((byte_to_Z a * 256 + byte_to_Z b) * 256 + byte_to_Z c)%Z in
  let m := (((n / 262144 * 64 + n / 4096 mod 64) * 64 + n / 64 mod 64) * 64 + n mod 64)%Z in
  ToUint8 (Some (m / 65536)%Z) = a ∧ ToUint8 (Some (m / 256)%Z) = b ∧ ToUint8 (Some m) = c.
Proof.
  intros n m.
  assert (m = n) as -> by (subst m n; byte_arith).
  subst n. repeat split; apply ToUint8_eq; byte_arith.
Qed.

Lemma group2_sextets (a b : byte) :
  let n := ((byte_to_Z a * 256 + byte_to_Z b) * 4)%Z in
  (0 ≤ n / 4096 < 64 ∧ 0 ≤ n / 64 mod 64 < 64 ∧ 0 ≤ n mod 64 < 64)%Z.
Proof. cbv zeta. repeat split; byte_arith. Qed.

Lemma group2_bytes (a b : byte) :
  let n := ((byte_to_Z a * 256 + byte_to_Z b) * 4)%Z in
  let m := (((n / 4096 * 64 + n / 64 mod 64) * 64 + n mod 64) / 4)%Z in
  ToUint8 (Some (m / 256)%Z) = a ∧ ToUint8 (Some m) = b.
Proof.
  intros n m.
  assert (m = byte_to_Z a * 256 + byte_to_Z b)%Z as -> by (subst m n; byte_arith).
  repeat split; apply ToUint8_eq; byte_arith.
Qed.

Lemma group1_sextets (a : byte) :
  let n := (byte_to_Z a * 16)%Z in (0 ≤ n / 64 < 64 ∧ 0 ≤ n mod 64 < 64)%Z.
Proof. cbv zeta. repeat split; byte_arith. Qed.

Lemma group1_bytes (a : byte) :
  let n := (byte_to_Z a * 16)%Z in
  ToUint8 (Some ((n / 64 * 64 + n mod 64) / 16)%Z) = a.
Proof. cbv zeta. apply ToUint8_eq. byte_arith. Qed.

(** The encoder's output, seen by the decoder: nothing to strip as
    whitespace, a length divisible by 4, and after removal of the padding
    the characters of a sextet sequence that decodes to the input. *)
Lemma base64_chars_decodable (X : list byte) :
  let enc := base64_chars X in
  List.filter (λ c, negb (is_ascii_whitespace c)) enc = enc ∧
  List.length enc mod 4 = 0 ∧
  ∃ sx, strip_padding enc = base64_char <$> sx ∧
        Forall (λ s, (0 ≤ s < 64)%Z) sx ∧
        List.length sx mod 4 ≠ 1 ∧
        decode_sextets sx = X.
Proof.
  induction X as [|a|a b|a b c X IH] using list_ind3.
  - split; [done|]. split; [done|]. by exists [].
  - pose proof (group1_sextets a) as G; cbv zeta in G; destruct G as [H1 H2].
    destruct (base64_char_value _ H1) as (_ & W1 & P1).
    destruct (base64_char_value _ H2) as (_ & W2 & P2).
    cbn [base64_chars]. cbv zeta. split; [|split; [done|]].
    + cbn [List.filter]. by rewrite W1, W2.
    + eexists [_; _]. split; [|split; [|split]].
      * cbn [strip_padding]. reflexivity.
      * repeat (apply List.Forall_cons; [assumption|]); done.
      * done.
      * cbn [decode_sextets]. f_equal. pose proof (group1_bytes a) as G. by cbv zeta in G.
  - pose proof (group2_sextets a b) as G; cbv zeta in G; destruct G as (H1 & H2 & H3).
    destruct (base64_char_value _ H1) as (_ & W1 & P1).
    destruct (base64_char_value _ H2) as (_ & W2 & P2).
    destruct (base64_char_value _ H3) as (_ & W3 & P3).
    cbn [base64_chars]. cbv zeta. split; [|split; [done|]].
    + cbn [List.filter]. by rewrite W1, W2, W3.
    + eexists [_; _; _]. split; [|split; [|split]].
      * cbn [strip_padding]. rewrite P3. reflexivity.
      * repeat (apply List.Forall_cons; [assumption|]); done.
      * done.
      * cbn [decode_sextets]. cbv zeta.
        pose proof (group2_bytes a b) as G; cbv zeta in G; destruct G as [E1 E2].
        by rewrite E1, E2.
  - destruct IH as (IHf & IHl & sx & IHs & IHr & IHm & IHd).
    pose proof (group3_sextets a b c) as G; cbv zeta in G; destruct G as (H1 & H2 & H3 & H4).
    destruct (base64_char_value _ H1) as (_ & W1 & P1).
    destruct (base64_char_value _ H2) as (_ & W2 & P2).
    destruct (base64_char_value _ H3) as (_ & W3 & P3).
    destruct (base64_char_value _ H4) as (_ & W4 & P4).
    cbn [base64_chars]. cbv zeta. split; [|split].
    + cbn [List.filter]. rewrite W1, W2, W3, W4. cbn [negb]. by rewrite IHf.
    + cbn [List.length].
      change (S (S (S (S ?n)))) with (4 + n).
      by rewrite <- Nat.Div0.add_mod_idemp_l.
    + eexists (_ :: _ :: _ :: _ :: sx). split; [|split; [|split]].
      * rewrite strip_padding_group; [by rewrite IHs|done|].
        intros E. by rewrite E in IHl.
      * repeat (apply List.Forall_cons; [assumption|]); done.
      * cbn [List.length].
        change (S (S (S (S ?n)))) with (4 + n).
        by rewrite <- Nat.Div0.add_mod_idemp_l.
      * cbn [decode_sextets]. cbv zeta.
        pose proof (group3_bytes a b c) as G; cbv zeta in G; destruct G as (E1 & E2 & E3).
        by rewrite E1, E2, E3, IHd.
Qed.

Lemma mapM_base64_value (sx : list Z) :
  Forall (λ s, (0 ≤ s < 64)%Z) sx → mapM base64_value (base64_char <$> sx) = Some sx.
Proof.
  intros Hsx. apply mapM_Some. apply Forall2_fmap_l, Forall_Forall2_diag.
  eapply Forall_impl; [done|]. intros s Hs. by apply base64_char_value.
Qed.

Lemma forgiving_base64_decode_encode (X : list byte) :
  forgiving_base64_decode (base64_chars X) = Some X.
Proof.
  pose proof (base64_chars_decodable X) as G. cbv zeta in G.
  destruct G as (Hf & Hl & sx & Hs & Hr & Hm & Hd).
  unfold forgiving_base64_decode. cbv zeta. rewrite Hf.
  destruct (decide (List.length (base64_chars X) mod 4 = 0)) as [_|?]; [|done].
  rewrite Hs, length_fmap. rewrite decide_False by done.
  by rewrite mapM_base64_value, <- Hd.
Qed.

(** The encoder on the test vectors of RFC 4648, section 10, and the
    decoder on input that is not base64. *)
Example base64Encode_rfc4648 :
  base64Encode (ascii_bytes "") = ""%string ∧
  base64Encode (ascii_bytes "f") = "Zg=="%string ∧
  base64Encode (ascii_bytes "fo") = "Zm8="%string ∧
  base64Encode (ascii_bytes "foo") = "Zm9v"%string ∧
  base64Encode (ascii_bytes "foob") = "Zm9vYg=="%string ∧
  base64Encode (ascii_bytes "fooba") = "Zm9vYmE="%string ∧
  base64Encode (ascii_bytes "foobar") = "Zm9vYmFy"%string.
Proof. repeat split; reflexivity. Qed.

Example atob_examples :
  (atob "Zm9v YmFy" ∅).1 = Ok "foobar"%string ∧
  (atob "Zm9vYg" ∅).1 = Ok "foob"%string ∧
  (atob "Zm9vY" ∅).1 = Throw InvalidCharacterError ∧
  (atob "Zm9vYg=" ∅).1 = Throw InvalidCharacterError ∧
  (atob "Zm9v*A==" ∅).1 = Throw InvalidCharacterError.
Proof. repeat split; reflexivity. Qed.

Lemma atob_base64Encode (X : list byte) (h : Heap) :
  atob (base64Encode X) h = (Ok (binary_string X), h).
Proof.
  unfold atob, base64Encode.
  by rewrite list_ascii_of_string_of_list_ascii, forgiving_base64_decode_encode.
Qed.

(** ** [decode] *)

Lemma length_binary_string (X : list byte) :
  String.length (binary_string X) = List.length X.
Proof.
  unfold binary_string. induction X as [|b X IH]; simpl; [done|]. f_equal. exact IH.
Qed.

Lemma charCodeAt_binary_string (X : list byte) (i : nat) :
  charCodeAt (binary_string X) i = byte_to_Z <$> X !! i.
Proof.
  unfold charCodeAt, binary_string. revert i.
  induction X as [|b X IH]; intros [|i]; simpl; try done.
  unfold byte_to_ascii, byte_to_Z.
  rewrite N_ascii_embedding; [done|]. pose proof (Byte.to_N_bounded b). lia.
Qed.

Lemma Uint8Array_set_run (l : loc) (h : Heap) (len i : nat) (v : option Z)
    (bs : list byte) :
  i < len →
  Uint8Array_set (View.mk l 0 len) i v (<[l:=bs]> h)
  = (Ok (), <[l := <[0 + i := ToUint8 v]> bs]> h).
Proof.
  intros Hi. unfold Uint8Array_set. simpl.
  rewrite decide_True by done. by rewrite alter_insert_eq.
Qed.

(** [decode] rethrows what [atob] throws, and otherwise allocates one
    buffer, fills it with the code units of the binary string, each
    reduced modulo 256, and returns the array that covers it. *)
Lemma decode_throws (base64 : string) (h h' : Heap) (e : Error) :
  atob base64 h = (Throw e, h') → decode base64 h = (Throw e, h').
Proof. intros E. unfold decode. by rewrite bind_run, E. Qed.

Lemma decode_atob (base64 binaryString : string) (h : Heap) :
  atob base64 h = (Ok binaryString, h) →
  decode base64 h
  = (Ok (View.mk (fresh (dom h)) 0 (String.length binaryString)),
     <[fresh (dom h) := ascii_bytes binaryString]> h).
Proof.
  intros E. unfold decode. erewrite bind_Ok by exact E.
  rewrite bind_run. unfold new_Uint8Array. rewrite bind_run. unfold new_ArrayBuffer.
  set (l := fresh (dom h)). cbn [mret M_ret ret].
  erewrite bind_Ok; cycle 1.
  { apply (for_loop_fill l h (String.length binaryString) 0
             (λ i, ToUint8 (charCodeAt binaryString i))).
    - intros i bs' Hi Hbs'. apply Uint8Array_set_run. lia.
    - by rewrite length_replicate. }
  cbn [mret M_ret ret]. do 3 f_equal.
  rewrite store_bytes_all by (by rewrite length_fmap, length_seq, length_replicate).
  rewrite <- length_ascii_bytes. apply fmap_seq_lookup.
  intros i Hi. apply charCodeAt_bytes. by rewrite <- length_ascii_bytes.
Qed.

Lemma ascii_bytes_binary_string (X : list byte) : ascii_bytes (binary_string X) = X.
Proof.
  apply list_eq. intros i.
  destruct (decide (i < List.length X)) as [Hi|Hi].
  - rewrite charCodeAt_bytes by (by rewrite length_binary_string).
    rewrite charCodeAt_binary_string.
    destruct (lookup_lt_is_Some_2 X i Hi) as [b Hb]. rewrite Hb.
    f_equal. apply ToUint8_byte_to_Z.
  - rewrite (lookup_ge_None_2 X) by lia. apply lookup_ge_None.
    rewrite length_ascii_bytes, length_binary_string. lia.
Qed.

(** On the encoding of [X] the buffer is filled with [X]. *)
Lemma decode_run (X : list byte) (h : Heap) :
  decode (base64Encode X) h
  = (Ok (View.mk (fresh (dom h)) 0 (List.length X)), <[fresh (dom h) := X]> h).
Proof.
  rewrite (decode_atob _ _ _ (atob_base64Encode X h)).
  by rewrite length_binary_string, ascii_bytes_binary_string.
Qed.

(** ** Numbers *)

Lemma num_div_nonzero (a b : Z) :
  b ≠ 0%Z → num_div (Some a) b = Finite (Qred (inject_Z a / inject_Z b)).
Proof.
  intros Hb. unfold num_div. by rewrite (proj2 (Z.eqb_neq b 0) Hb).
Qed.

Lemma num_div_normalise (v : Z) : num_div (Some v) 32768 = normalise v.
Proof.
  rewrite num_div_nonzero by done. unfold normalise. f_equal.
  apply Qred_complete. unfold Qeq, Qdiv, Qmult, Qinv, inject_Z. simpl. lia.
Qed.



(** A normalised sample has at most 16 significant bits and the exponent
    -15: binary32, with its 24-bit significand, holds it exactly, so the
    rounding of the [Float32Array] store is the identity on it. *)
Lemma normalise_binary32 (v : Z) :
  (-32768 ≤ v ≤ 32767)%Z →
  ∃ m : Z, (Z.abs m < 2 ^ 24)%Z ∧ (Qred (v # 32768) == inject_Z m * (1 # 2 ^ 15))%Q.
Proof.
  intros Hv. exists v. split; [lia|].
  rewrite Qred_correct. unfold Qeq, Qmult, inject_Z. simpl. lia.
Qed.

Lemma Qfloor_quotient (a b : Z) :
  Qfloor (Qred (inject_Z a / inject_Z b)) = (a / b)%Z.
Proof.
  rewrite (Qfloor_comp _ _ (Qred_correct _)). symmetry. apply Zdiv_Qdiv.
Qed.

Lemma Qfloor_le_Qceiling (q : Q) : (Qfloor q ≤ Qceiling q)%Z.
Proof. rewrite Zle_Qle. apply Qle_floor_ceiling. Qed.

Lemma quotient_nonneg (a b : Z) :
  (0 ≤ a)%Z → (0 < b)%Z → (0 <= Qred (inject_Z a / inject_Z b))%Q.
Proof.
  intros Ha Hb. rewrite Qred_correct.
  apply Qle_shift_div_l.
  - rewrite Zlt_Qlt in Hb. exact Hb.
  - rewrite Qmult_0_l. rewrite Zle_Qle in Ha. exact Ha.
Qed.

(** The frame count a conformant context allocates, and the number of
    iterations of the inner loop, for a positive channel count. *)
Lemma frames_allocated (L nc : Z) :
  (0 ≤ L)%Z → (0 < nc)%Z →
  ToUnsignedLong (num_div (Some L) nc) = ((L / nc) mod 4294967296)%Z ∧
  (L / nc ≤ Z.of_nat (trip_count (num_div (Some L) nc)))%Z.
Proof.
  intros HL Hnc. rewrite num_div_nonzero by lia.
  unfold ToUnsignedLong, trip_count, Qtrunc.
  pose proof (quotient_nonneg L nc HL Hnc) as Hq.
  rewrite (proj2 (Qle_bool_iff _ _) Hq), Qfloor_quotient. split; [done|].
  pose proof (Qfloor_le_Qceiling (Qred (inject_Z L / inject_Z nc))) as Hfc.
  rewrite Qfloor_quotient in Hfc.
  pose proof (Z.div_pos L nc HL Hnc). lia.
Qed.

(** ** [decodeAudioData] *)

(** A loop whose body only computes runs as a fold and leaves the heap
    alone. *)
Lemma for_loop_pure {S} (g : nat → S → S) (body : nat → S → M S) (h : Heap) :
  (∀ i s, body i s h = (Ok (g i s), h)) →
  ∀ count start s,
    for_loop start count body s h
    = (Ok (foldl (λ s i, g i s) s (seq start count)), h).
Proof.
  intros Hbody. induction count as [|count IH]; intros start s; [done|].
  cbn [for_loop seq foldl]. erewrite bind_Ok by apply Hbody. apply IH.
Qed.

Lemma lookup_fill {A} (v : nat → A) (count : nat) :
  ∀ start (s : list A) j,
    foldl (λ s i, <[i := v i]> s) s (seq start count) !! j
    = if decide (start ≤ j < start + count ∧ j < List.length s)
      then Some (v j) else s !! j.
Proof.
  induction count as [|count IH]; intros start s j.
  - cbn [seq foldl]. rewrite decide_False by lia. done.
  - cbn [seq foldl]. rewrite IH, length_insert.
    destruct (decide (j = start)) as [->|Hne].
    + destruct (decide (start < List.length s)) as [Hlt|Hge].
      * rewrite decide_False by lia. rewrite decide_True by lia.
        by apply list_lookup_insert_eq.
      * rewrite !decide_False by lia. rewrite list_insert_ge by lia. done.
    + rewrite list_lookup_insert_ne by done.
      repeat case_decide; try done; lia.
Qed.

Lemma fill_all {A} (v : nat → A) (count : nat) (s : list A) :
  List.length s ≤ count →
  foldl (λ s i, <[i := v i]> s) s (seq 0 count) = v <$> seq 0 (List.length s).
Proof.
  intros Hlen. apply list_eq. intros j.
  rewrite lookup_fill, list_lookup_fmap.
  destruct (decide (j < List.length s)) as [Hj|Hj].
  - rewrite decide_True by lia. by rewrite lookup_seq_lt.
  - rewrite decide_False by lia. rewrite lookup_seq_ge by lia.
    apply lookup_ge_None. lia.
Qed.

Lemma foldl_Float32Array_set (c : nat) (v : nat → number) (ixs : list nat) :
  ∀ b,
    foldl (λ b i, Float32Array_set b c i (v i)) b ixs
    = mkAudioBuffer (ab_sampleRate b) (ab_length b)
        (alter (λ s, foldl (λ s i, <[i := v i]> s) s ixs) c (ab_channels b)).
Proof.
  induction ixs as [|i ixs IH]; intros b; cbn [foldl].
  - destruct b as [sr len chans]. cbn. f_equal. symmetry. apply list_alter_id. done.
  - rewrite IH. unfold Float32Array_set. cbn [ab_sampleRate ab_length ab_channels].
    f_equal. by rewrite list_alter_alter_eq.
Qed.

Lemma Int16Array_get_run (l0 : loc) (h : Heap) (k : Z) :
  Nat.even (List.length (bytes_at h l0)) = true → (0 ≤ k)%Z →
  Int16Array_get (View.mk l0 0 (List.length (bytes_at h l0) / 2)) k h
  = (Ok (pcm_sample (bytes_at h l0) (Z.to_nat k)), h).
Proof.
  intros Heven Hk. unfold Int16Array_get, pcm_sample. f_equal. f_equal.
  cbn [View.length View.buffer View.byteOffset].
  set (bs := bytes_at h l0) in *.
  apply Nat.even_spec in Heven as [m Hm].
  rewrite Hm. replace (2 * m / 2) with m by (by rewrite Nat.mul_comm, Nat.div_mul).
  case_decide as Hin; [done|].
  assert (bs !! (2 * Z.to_nat k + 1) = None) as Hhi by (apply lookup_ge_None; lia).
  rewrite Hhi. by destruct (bs !! (2 * Z.to_nat k)).
Qed.

Lemma decodeAudioData_odd data ctx sampleRate numChannels (h : Heap) :
  Nat.even (List.length (bytes_at h (View.buffer data))) = false →
  decodeAudioData data ctx sampleRate numChannels h = (Throw RangeError, h).
Proof.
  intros Hodd. unfold decodeAudioData. cbv zeta.
  rewrite bind_run. unfold Int16Array_of_buffer. cbv zeta. by rewrite Hodd.
Qed.

(** For a buffer of even length the function constructs the 16-bit view,
    hands [dataInt16.length / numChannels] as it is to [createBuffer], and
    runs the copy loops on the buffer it gets. *)
Lemma decodeAudioData_even data ctx sampleRate numChannels (h : Heap) :
  Nat.even (List.length (bytes_at h (View.buffer data))) = true →
  let sr := default 24000%Z sampleRate in
  let nc := default 1%Z numChannels in
  let dataInt16 :=
    View.mk (View.buffer data) 0 (List.length (bytes_at h (View.buffer data)) / 2) in
  let frameCount := num_div (Some (Z.of_nat (View.length dataInt16))) nc in
  decodeAudioData data ctx sampleRate numChannels h
  = (buffer ← createBuffer ctx nc frameCount sr;
     for_loop 0 (Z.to_nat nc) (λ channel buffer,
       channelData ← getChannelData buffer channel;
       for_below frameCount (λ i buffer,
         sample ← Int16Array_get dataInt16 (Z.of_nat i * nc + Z.of_nat channel);
         mret (Float32Array_set buffer channelData i (num_div sample 32768)))
         buffer) buffer) h.
Proof.
  intros Heven. cbv zeta. unfold decodeAudioData. cbv zeta.
  rewrite bind_run. unfold Int16Array_of_buffer. cbv zeta. by rewrite Heven.
Qed.

(** The copy loops, started on the zero-filled buffer of a conformant
    context, de-interleave and normalise the first [frames] frames. *)
Lemma copy_loops_run (l0 : loc) (h : Heap) (nc sr : Z) (frames : nat) :
  let bs := bytes_at h l0 in
  let dataInt16 := View.mk l0 0 (List.length bs / 2) in
  let frameCount := num_div (Some (Z.of_nat (List.length bs / 2))) nc in
  let C := Z.to_nat nc in
  Nat.even (List.length bs) = true →
  ((0 < nc)%Z → frames ≤ trip_count frameCount) →
  for_loop 0 C (λ channel buffer,
    channelData ← getChannelData buffer channel;
    for_below frameCount (λ i buffer,
      sample ← Int16Array_get dataInt16 (Z.of_nat i * nc + Z.of_nat channel);
      mret (Float32Array_set buffer channelData i (num_div sample 32768)))
      buffer)
    (mkAudioBuffer sr frames (replicate C (replicate frames (Finite 0)))) h
  = (Ok (mkAudioBuffer sr frames ((λ c, pcm_channel bs C frames c) <$> seq 0 C)), h).
Proof.
  intros bs dataInt16 frameCount C Heven Htrip.
  set (zero := replicate frames (Finite 0)).
  set (B := λ k, mkAudioBuffer sr frames
                   (((λ c, pcm_channel bs C frames c) <$> seq 0 k)
                    ++ replicate (C - k) zero)).
  set (body := λ (channel : nat) (buffer : AudioBuffer), _).
  assert (∀ count k, k + count = C →
            for_loop k count body (B k) h = (Ok (B C), h)) as Hloop.
  { induction count as [|count IH]; intros k Hk.
    - rewrite Nat.add_0_r in Hk. by subst k.
    - cbn [for_loop]. erewrite bind_Ok; [apply IH; lia|].
      assert (0 < nc)%Z as Hnc by lia.
      specialize (Htrip Hnc).
      subst body. cbv beta.
      rewrite bind_run. unfold getChannelData, numberOfChannels.
      cbn [B ab_channels]. rewrite length_app, length_fmap, length_seq, length_replicate.
      rewrite decide_True by lia. cbn [mret M_ret ret].
      subst frameCount. rewrite num_div_nonzero in * by lia.
      cbn [for_below].
      rewrite (for_loop_pure (λ i b, Float32Array_set b k i
                 (num_div (pcm_sample bs (i * C + k)) 32768))).
      + rewrite foldl_Float32Array_set. subst B. cbv beta.
        cbn [ab_sampleRate ab_length ab_channels]. do 2 f_equal.
        replace (C - k) with (S (C - S k)) by lia.
        rewrite alter_app_r_alt by (by rewrite length_fmap, length_seq).
        rewrite length_fmap, length_seq, Nat.sub_diag. cbn [replicate alter list_alter].
        rewrite seq_S, fmap_app, <- app_assoc. cbn [fmap list_fmap app Nat.add].
        do 2 f_equal. unfold pcm_channel.
        rewrite fill_all by (subst zero; rewrite length_replicate; lia).
        subst zero. by rewrite length_replicate.
      + intros i s.
        assert (0 ≤ Z.of_nat i * nc)%Z as Hin by (apply Z.mul_nonneg_nonneg; lia).
        erewrite bind_Ok; [|apply Int16Array_get_run; [done|lia]].
        cbn [mret M_ret ret]. do 4 f_equal. subst C.
        rewrite Z2Nat.inj_add, Z2Nat.inj_mul, !Nat2Z.id by lia. done. }
  specialize (Hloop C 0 eq_refl). subst B. cbv beta in Hloop.
  rewrite Nat.sub_0_r, Nat.sub_diag, app_nil_r in Hloop. exact Hloop.
Qed.

(** With a conformant context the function is the mapping [decoded] of
    the bytes of the underlying buffer, and the heap is left as it was. *)
Lemma decodeAudioData_decoded data ctx sampleRate numChannels (h : Heap) :
  Conformant ctx →
  decodeAudioData data ctx sampleRate numChannels h
  = (decoded ctx (bytes_at h (View.buffer data)) sampleRate numChannels, h).
Proof.
  intros Hctx. unfold decoded. cbv zeta.
  set (bs := bytes_at h (View.buffer data)).
  set (sr := default 24000%Z sampleRate). set (nc := default 1%Z numChannels).
  destruct (Nat.even (List.length bs)) eqn:Heven;
    [|by apply decodeAudioData_odd].
  rewrite decodeAudioData_even by done. cbv zeta. cbn [View.length]. fold bs sr nc.
  set (fc := num_div (Some (Z.of_nat (List.length bs / 2))) nc).
  rewrite bind_run.
  rewrite <- (createBuffer_pure ctx Hctx nc fc sr h ∅).
  pose proof (createBuffer_heap ctx Hctx nc fc sr h) as Hheap.
  pose proof (createBuffer_shape ctx Hctx nc fc sr h) as Hshape.
  destruct (createBuffer ctx nc fc sr h) as [[b0|e|] h1]; cbn [fst snd] in *;
    subst h1; [|done..].
  destruct (Hshape b0 eq_refl) as (Hsr & Hlen & Hch).
  destruct b0 as [sr0 len0 ch0]. cbn [ab_sampleRate ab_length ab_channels] in *.
  subst sr0 len0 ch0.
  apply copy_loops_run; [done|]. fold bs. intros Hnc.
  destruct (frames_allocated (Z.of_nat (List.length bs / 2)) nc) as [Hn Ht]; [lia|done|].
  fold fc in Hn, Ht. rewrite Hn.
  pose proof (Z.mod_le (Z.of_nat (List.length bs / 2) / nc) 4294967296
                ltac:(apply Z.div_pos; lia) ltac:(lia)).
  unfold fc in Ht. lia.
Qed.

Lemma pcm_sample_range (bs : list byte) (k : nat) (v : Z) :
  pcm_sample bs k = Some v → (-32768 ≤ v ≤ 32767)%Z.
Proof.
  unfold pcm_sample. intros E.
  destruct (bs !! (2 * k)) as [lo|]; [|done].
  destruct (bs !! (2 * k + 1)) as [hi|]; [|done].
  cbn in E. injection E as <-.
  pose proof (byte_to_Z_range lo). pose proof (byte_to_Z_range hi).
  unfold to_int16. case_match; lia.
Qed.

Lemma pcm_sample_defined (bs : list byte) (k : nat) :
  2 * k + 1 < List.length bs → is_Some (pcm_sample bs k).
Proof.
  intros Hk. unfold pcm_sample.
  destruct (lookup_lt_is_Some_2 bs (2 * k) ltac:(lia)) as [lo ->].
  destruct (lookup_lt_is_Some_2 bs (2 * k + 1) ltac:(lia)) as [hi ->].
  by eexists.
Qed.




Lemma is_integer_quotient (a b : Z) :
  is_integer (num_div (Some a) b) = true → b ≠ 0%Z ∧ (b | a)%Z.
Proof.
  unfold num_div. destruct (b =? 0)%Z eqn:Hb.
  - by destruct (a =? 0)%Z.
  - apply Z.eqb_neq in Hb. cbn [is_integer]. intros Hint. split; [done|].
    apply Qeq_bool_eq in Hint.
    pose proof (Qfloor_quotient a b) as Hfl.
    pose proof (Qred_correct (inject_Z a / inject_Z b)) as Hred.
    set (q := Qred (inject_Z a / inject_Z b)) in *. clearbody q.
    assert (∀ z, Qfloor q = z → q == inject_Z z)%Q as Hz by (intros z <-; exact Hint).
    specialize (Hz _ Hfl).
    exists (a / b)%Z.
    assert (inject_Z a == inject_Z (a / b) * inject_Z b)%Q as E.
    { rewrite <- Hz, Hred. field. intros E0. apply Hb.
      unfold Qeq in E0. simpl in E0. lia. }
    rewrite <- inject_Z_mult in E. unfold Qeq in E. simpl in E. lia.
Qed.

Lemma webAudio_conformant : Conformant webAudio.
Proof.
  split; unfold webAudio, createBuffer, webAudio_createBuffer; cbv zeta.
  - intros nc len sr h. by case_decide.
  - intros nc len sr h h'. by case_decide.
  - intros nc len sr h. by case_decide.
  - intros nc len sr h b. case_decide; [|done].
    cbn. intros E. injection E as <-. done.
  - intros nc len sr h Hnc Hlen Hsr. rewrite decide_True by lia. by eexists.
  - intros nc len sr h Hbad. rewrite decide_False by lia. done.
Qed.

(** * The claims *)

(** ** The WAV encoder *)

Lemma le_value_2 (v : Z) :
  le_value [ToUint8 (Some v); ToUint8 (Some (v / 256)%Z)] = (v mod 65536)%Z.
Proof. exact (le_value_le_bytes 2 v). Qed.

Lemma le_value_4 (v : Z) :
  le_value [ToUint8 (Some v); ToUint8 (Some (v / 256)%Z);
            ToUint8 (Some (v / 256 / 256)%Z); ToUint8 (Some (v / 256 / 256 / 256)%Z)]
  = (v mod 4294967296)%Z.
Proof. exact (le_value_le_bytes 4 v). Qed.

(** Reading the fields back from a header followed by any payload. *)
Lemma read_wav_header (n : nat) (sr ch : Z) (payload : list byte) :
  read_header (wav_header n sr ch ++ payload)
  = {| ChunkID := ascii_bytes "RIFF";
       ChunkSize := (36 + Z.of_nat n) mod 4294967296;
       Format := ascii_bytes "WAVE";
       Subchunk1ID := ascii_bytes "fmt ";
       Subchunk1Size := 16;
       AudioFormat := 1;
       NumChannels := ch mod 65536;
       SampleRate := sr mod 4294967296;
       ByteRate := (sr * ch * 2) mod 4294967296;
       BlockAlign := (ch * 2) mod 65536;
       BitsPerSample := 16;
       Subchunk2ID := ascii_bytes "data";
       Subchunk2Size := Z.of_nat n mod 4294967296 |}.
Proof.
  unfold read_header, wav_header, getUint16, getUint32, ToUint16, ToUint32.
  (let r := eval vm_compute in (ascii_bytes "RIFF") in change (ascii_bytes "RIFF") with r).
  (let r := eval vm_compute in (ascii_bytes "WAVE") in change (ascii_bytes "WAVE") with r).
  (let r := eval vm_compute in (ascii_bytes "fmt ") in change (ascii_bytes "fmt ") with r).
  (let r := eval vm_compute in (ascii_bytes "data") in change (ascii_bytes "data") with r).
  cbn [le_bytes app drop take].
  rewrite !le_value_2, !le_value_4, !Z.mod_mod by done.
  reflexivity.
Qed.

Ltac concrete_view_ok := split; [by eexists | vm_compute; lia].

(** C1, at an array that starts inside its buffer. The claim asks for the
    bytes of the array after the header; for [subarray(2)] of the buffer
    01 02 03 04 the blob has the right length, 46, but carries 01 02, the
    start of the buffer, where the array holds 03 04. *)
Theorem createWavBlob_offset_view :
  view_ok shared_heap tail_view ∧
  view_bytes shared_heap tail_view = [x03; x04] ∧
  ∃ blob h',
    createWavBlob tail_view 24000 1 shared_heap = (Ok blob, h') ∧
    List.length (blob_bytes blob) = 46 ∧
    drop 44 (blob_bytes blob) = [x01; x02].
Proof.
  assert (view_ok shared_heap tail_view) as Hok by concrete_view_ok.
  split; [done|]. split; [done|].
  eexists _, _. split; [by apply createWavBlob_run|].
  cbn [blob_bytes].
  rewrite length_app, length_wav_header.
  rewrite drop_app_length' by (by rewrite length_wav_header).
  split; reflexivity.
Qed.




(** C8. For an empty array the blob is the 44-byte header alone, with
    chunk size 36 and data size 0, whatever the sample rate and the
    channel count. *)
Theorem createWavBlob_empty (pcmData : Uint8Array) (sampleRate numChannels : Z)
    (h : Heap) :
  view_ok h pcmData → View.length pcmData = 0 →
  ∃ blob h',
    createWavBlob pcmData sampleRate numChannels h = (Ok blob, h') ∧
    List.length (blob_bytes blob) = 44 ∧
    blob_bytes blob = wav_header 0 sampleRate numChannels ∧
    getUint32 (blob_bytes blob) 4 = 36%Z ∧
    getUint32 (blob_bytes blob) 40 = 0%Z.
Proof.
  intros Hok Hlen. eexists _, _. split; [by apply createWavBlob_run|].
  cbn [blob_bytes]. rewrite Hlen, take_0, app_nil_r.
  split; [apply length_wav_header|]. split; [done|].
  pose proof (read_wav_header 0 sampleRate numChannels []) as Hhdr.
  rewrite app_nil_r in Hhdr.
  split.
  - by apply (f_equal ChunkSize) in Hhdr.
  - by apply (f_equal Subchunk2Size) in Hhdr.
Qed.

Lemma createWavBlob_empty_witness :
  ∃ blob h',
    createWavBlob empty_bytes 24000 1 empty_heap = (Ok blob, h') ∧
    List.length (blob_bytes blob) = 44.
Proof.
  destruct (createWavBlob_empty empty_bytes 24000 1 empty_heap)
    as (blob & h' & Hrun & Hlen & _); [concrete_view_ok|reflexivity|].
  exists blob, h'. split; [exact Hrun|exact Hlen].
Defined.

(** C9. The payload is read through a new array over the whole buffer
    underlying [pcmData]: the data region of the blob is the first
    [pcmData.length] bytes of that buffer. It is the content of [pcmData]
    when [pcmData] starts at byte offset 0, and in general only when the
    start of the buffer happens to repeat at the array's offset. *)
Theorem createWavBlob_reads_buffer (pcmData : Uint8Array) (sampleRate numChannels : Z)
    (h : Heap) :
  view_ok h pcmData →
  ∃ blob h',
    createWavBlob pcmData sampleRate numChannels h = (Ok blob, h') ∧
    drop 44 (blob_bytes blob)
    = take (View.length pcmData) (bytes_at h (View.buffer pcmData)) ∧
    (View.byteOffset pcmData = 0 → drop 44 (blob_bytes blob) = view_bytes h pcmData) ∧
    (drop 44 (blob_bytes blob) = view_bytes h pcmData ↔
     take (View.length pcmData) (bytes_at h (View.buffer pcmData))
     = take (View.length pcmData)
         (drop (View.byteOffset pcmData) (bytes_at h (View.buffer pcmData)))).
Proof.
  intros Hok. eexists _, _. split; [by apply createWavBlob_run|].
  cbn [blob_bytes]. rewrite drop_app_length' by (by rewrite length_wav_header).
  split; [done|]. split; [|done].
  intros Hoff. unfold view_bytes. by rewrite Hoff, drop_0.
Qed.

Lemma createWavBlob_reads_buffer_witness :
  ∃ blob h',
    createWavBlob tail_view 24000 1 shared_heap = (Ok blob, h') ∧
    drop 44 (blob_bytes blob) = [x01; x02].
Proof.
  destruct (createWavBlob_reads_buffer tail_view 24000 1 shared_heap)
    as (blob & h' & Hrun & Hdata & _); [concrete_view_ok|].
  exists blob, h'. split; [exact Hrun|exact Hdata].
Defined.

(** ** The base64 decoder *)

(** C6. For every byte sequence [X], [decode] applied to the reference
    base64 encoding of [X] returns an array whose length is the length of
    [X] and whose bytes are those of [X], one by one; it is a new array
    over a new buffer, and no other buffer changes. *)
Theorem decode_base64Encode (X : list byte) (h : Heap) :
  ∃ bytes h',
    decode (base64Encode X) h = (Ok bytes, h') ∧
    View.length bytes = List.length X ∧
    view_bytes h' bytes = X ∧
    (∀ i, byte_to_Z <$> view_bytes h' bytes !! i = byte_to_Z <$> X !! i) ∧
    view_ok h' bytes ∧
    h !! View.buffer bytes = None ∧
    (∀ l, l ≠ View.buffer bytes → h' !! l = h !! l).
Proof.
  eexists _, _. split; [apply decode_run|].
  cbn [View.length View.buffer]. unfold view_bytes, view_ok.
  cbn [View.length View.buffer View.byteOffset].
  rewrite bytes_at_insert, drop_0, firstn_all.
  repeat split; try done.
  - by rewrite lookup_insert_eq.
  - apply not_elem_of_dom, is_fresh.
  - intros l Hl. by rewrite lookup_insert_ne.
Qed.

(** ** The PCM converter *)






(** C5. The scenario of section 8: the bytes 00 00 FF 7F at one channel
    decode, with any conformant context, to the channel
    [0, 32767/32768], and 32767/32768 is 0.999969482421875; the WAV blob
    of the same bytes at 24000 Hz and one channel has 48 bytes, of which
    bytes 40 to 43 are 04 00 00 00. *)
Theorem scenario_results (ctx : AudioContext) :
  Conformant ctx →
  view_bytes scenario_heap scenario_bytes = [x00; x00; xff; x7f] ∧
  (∃ buffer,
     decodeAudioData scenario_bytes ctx None (Some 1%Z) scenario_heap
     = (Ok buffer, scenario_heap) ∧
     ab_channels buffer = [[Finite 0; Finite (32767 # 32768)]] ∧
     (32767 # 32768 == 999969482421875 # 1000000000000000)%Q) ∧
  (∃ blob h',
     createWavBlob scenario_bytes 24000 1 scenario_heap = (Ok blob, h') ∧
     List.length (blob_bytes blob) = 48 ∧
     take 4 (drop 40 (blob_bytes blob)) = [x04; x00; x00; x00] ∧
     getUint32 (blob_bytes blob) 40 = 4%Z).
Proof.
  intros Hctx. split; [reflexivity|]. split.
  - eexists. split; [|split; [|reflexivity]].
    + rewrite decodeAudioData_decoded by done. f_equal.
      unfold decoded. cbv zeta.
      change (bytes_at scenario_heap (View.buffer scenario_bytes))
        with [x00; x00; xff; x7f].
      cbn [List.length Nat.even default].
      match goal with
      | |- context [createBuffer ctx ?nc ?fc ?sr ∅] =>
          destruct (createBuffer_accepts ctx Hctx nc fc sr ∅) as [b0 Hb0];
          [simpl; lia|by vm_compute|simpl; lia|]
      end.
      rewrite Hb0. reflexivity.
    + by vm_compute.
  - eexists _, _. split; [apply createWavBlob_run; concrete_view_ok|].
    cbn [blob_bytes]. by vm_compute.
Qed.

Lemma scenario_results_witness :
  ∃ buffer,
    decodeAudioData scenario_bytes webAudio None (Some 1%Z) scenario_heap
    = (Ok buffer, scenario_heap) ∧
    ab_channels buffer = [[Finite 0; Finite (32767 # 32768)]].
Proof.
  destruct (scenario_results webAudio webAudio_conformant)
    as (_ & (buffer & Hrun & Hch & _) & _).
  exists buffer. split; [exact Hrun|exact Hch].
Defined.



Lemma is_integer_inject_Z (z : Z) : is_integer (Finite (inject_Z z)) = true.
Proof. cbn [is_integer]. rewrite Qfloor_Z. apply Qeq_bool_refl. Qed.

(** C10. [decodeAudioData] builds the 16-bit array over the whole buffer
    under its input. When that buffer has an odd number of bytes the
    construction throws a RangeError and nothing is truncated. Otherwise
    the frame count handed to [createBuffer] is the quotient
    [dataInt16.length / numChannels] itself; when the sample count is not
    a multiple of the channel count this is not an integer, and so not the
    floored quotient. For an input that covers its buffer the odd byte
    count is the input's own. *)
Theorem decodeAudioData_frameCount data ctx sampleRate numChannels (h : Heap) :
  let bs := bytes_at h (View.buffer data) in
  let sr := default 24000%Z sampleRate in
  let nc := default 1%Z numChannels in
  let dataInt16 := View.mk (View.buffer data) 0 (List.length bs / 2) in
  let frameCount := num_div (Some (Z.of_nat (View.length dataInt16))) nc in
  (Nat.even (List.length bs) = false →
   decodeAudioData data ctx sampleRate numChannels h = (Throw RangeError, h)) ∧
  (Nat.even (List.length bs) = true →
   decodeAudioData data ctx sampleRate numChannels h
   = (buffer ← createBuffer ctx nc frameCount sr;
      for_loop 0 (Z.to_nat nc) (λ channel buffer,
        channelData ← getChannelData buffer channel;
        for_below frameCount (λ i buffer,
          sample ← Int16Array_get dataInt16 (Z.of_nat i * nc + Z.of_nat channel);
          mret (Float32Array_set buffer channelData i (num_div sample 32768)))
          buffer) buffer) h ∧
   (¬ (nc | Z.of_nat (View.length dataInt16))%Z →
    is_integer frameCount = false ∧
    frameCount ≠ Finite (inject_Z (Z.of_nat (View.length dataInt16) / nc)))) ∧
  (View.length data = List.length bs → Nat.even (View.length data) = false →
   decodeAudioData data ctx sampleRate numChannels h = (Throw RangeError, h)).
Proof.
  intros bs sr nc dataInt16 frameCount. split; [|split].
  - apply decodeAudioData_odd.
  - intros Heven. split; [by apply decodeAudioData_even|].
    intros Hndiv.
    assert (is_integer frameCount = false) as Hfrac.
    { destruct (is_integer frameCount) eqn:Hint; [|done].
      apply is_integer_quotient in Hint as [_ Hdiv]. done. }
    split; [done|]. intros E. rewrite E, is_integer_inject_Z in Hfrac. done.
  - intros Hcover Hodd. apply decodeAudioData_odd. fold bs. by rewrite <- Hcover.
Qed.

Lemma decodeAudioData_frameCount_witness :
  decodeAudioData odd_bytes webAudio None None odd_heap = (Throw RangeError, odd_heap) ∧
  is_integer (num_div (Some 3%Z) 2) = false.
Proof.
  split.
  - apply (proj1 (decodeAudioData_frameCount odd_bytes webAudio None None odd_heap)).
    reflexivity.
  - apply (proj1 (proj2 (decodeAudioData_frameCount ragged_bytes webAudio None
                           (Some 2%Z) ragged_heap))); [reflexivity|].
    change (¬ (2 | 3)%Z). intros [z Hz]. lia.
Defined.

(** * Further properties *)

(** ** [decode] on arbitrary text *)

Lemma atob_run (base64 : string) (h : Heap) :
  atob base64 h
  = match forgiving_base64_decode (list_ascii_of_string base64) with
    | Some bs => (Ok (binary_string bs), h)
    | None => (Throw InvalidCharacterError, h)
    end.
Proof. unfold atob. by destruct (forgiving_base64_decode _). Qed.

Lemma decode_Some (base64 : string) (bs : list byte) (h : Heap) :
  forgiving_base64_decode (list_ascii_of_string base64) = Some bs →
  decode base64 h
  = (Ok (View.mk (fresh (dom h)) 0 (List.length bs)), <[fresh (dom h) := bs]> h).
Proof.
  intros E. pose proof (atob_run base64 h) as Hatob. rewrite E in Hatob.
  rewrite (decode_atob _ _ _ Hatob).
  by rewrite length_binary_string, ascii_bytes_binary_string.
Qed.

Lemma decode_None (base64 : string) (h : Heap) :
  forgiving_base64_decode (list_ascii_of_string base64) = None →
  decode base64 h = (Throw InvalidCharacterError, h).
Proof. intros E. apply decode_throws. by rewrite atob_run, E. Qed.

(** X1. On text that [atob] rejects, [decode] throws the
    InvalidCharacterError and allocates nothing. On any other text it
    allocates exactly one buffer, which holds the decoded bytes, and
    returns the array that covers the whole of it from byte offset 0;
    every buffer that existed before is unchanged. *)
Theorem decode_outcome (base64 : string) (h : Heap) :
  match forgiving_base64_decode (list_ascii_of_string base64) with
  | None => decode base64 h = (Throw InvalidCharacterError, h)
  | Some bs =>
      ∃ bytes h',
        decode base64 h = (Ok bytes, h') ∧
        h !! View.buffer bytes = None ∧
        h' = <[View.buffer bytes := bs]> h ∧
        View.byteOffset bytes = 0 ∧
        View.length bytes = List.length bs ∧
        view_bytes h' bytes = bs ∧
        bytes_at h' (View.buffer bytes) = bs
  end.
Proof.
  destruct (forgiving_base64_decode _) as [bs|] eqn:E.
  - eexists _, _. split; [by apply decode_Some|].
    + cbn [View.buffer View.byteOffset View.length]. unfold view_bytes.
      cbn [View.buffer View.byteOffset View.length].
      rewrite bytes_at_insert, drop_0, firstn_all.
      split; [apply not_elem_of_dom, is_fresh|done].
  - by apply decode_None.
Qed.

Lemma In_strip_padding (c : ascii) (data : list ascii) :
  In c data → is_pad c = false → In c (strip_padding data).
Proof.
  intros Hin Hc. induction data as [|d data IH]; [done|].
  cbn [strip_padding]. destruct data as [|e [|f data]].
  - destruct Hin as [->|[]]. rewrite Hc. by left.
  - destruct Hin as [->|[->|[]]].
    + rewrite Hc. cbn [andb]. by left.
    + rewrite Hc, andb_false_r. right. cbn [strip_padding]. rewrite Hc. by left.
  - destruct Hin as [->|Hin]; [by left|]. right. by apply IH.
Qed.

Lemma forgiving_base64_decode_foreign (c : ascii) (data : list ascii) :
  In c data → base64_value c = None → is_ascii_whitespace c = false →
  is_pad c = false →
  forgiving_base64_decode data = None.
Proof.
  intros Hin Hval Hws Hpad. unfold forgiving_base64_decode. cbv zeta.
  set (kept := List.filter _ data).
  assert (In c kept) as Hkept by (apply filter_In; by rewrite Hws).
  set (stripped := if decide (List.length kept mod 4 = 0) then _ else _).
  assert (In c stripped) as Hstripped.
  { subst stripped. case_decide; [by apply In_strip_padding|done]. }
  case_decide; [done|].
  destruct (mapM base64_value stripped) as [sx|] eqn:E; [|done].
  assert (is_Some (mapM base64_value stripped)) as Hsome by (by rewrite E).
  apply mapM_is_Some in Hsome. rewrite Forall_forall in Hsome.
  apply list_elem_of_In in Hstripped.
  destruct (Hsome c Hstripped) as [v Hv]. cbn in Hv. congruence.
Qed.

(** X2. Text that contains a character which is neither of the base64
    alphabet, nor "=", nor ASCII whitespace (the "-" and "_" of the
    URL-safe alphabet, for instance) makes [decode] throw an
    InvalidCharacterError, and nothing is allocated. *)
Theorem decode_rejects_foreign (base64 : string) (c : ascii) (h : Heap) :
  In c (list_ascii_of_string base64) →
  base64_value c = None → is_ascii_whitespace c = false → is_pad c = false →
  decode base64 h = (Throw InvalidCharacterError, h).
Proof.
  intros Hin Hval Hws Hpad. apply decode_None.
  by apply (forgiving_base64_decode_foreign c).
Qed.

Lemma decode_rejects_foreign_witness :
  decode "AAD_fw==" scenario_heap = (Throw InvalidCharacterError, scenario_heap).
Proof.
  apply (decode_rejects_foreign "AAD_fw==" "_"%char scenario_heap);
    [right; right; right; by left | reflexivity | reflexivity | reflexivity].
Defined.

(** ** [createWavBlob]: effects and the consistency of the header *)

(** X3. [createWavBlob] writes to no buffer that existed before the
    call: its only effect on the heap is one new buffer of 44 + len
    bytes (its work buffer, a copy of which is the blob), so the input
    array and every other array read as they did before. *)
Theorem createWavBlob_frame (pcmData : Uint8Array) (sampleRate numChannels : Z)
    (h : Heap) :
  view_ok h pcmData →
  ∃ blob h',
    createWavBlob pcmData sampleRate numChannels h = (Ok blob, h') ∧
    (∀ l, is_Some (h !! l) → h' !! l = h !! l) ∧
    (∀ a, is_Some (h !! View.buffer a) → view_bytes h' a = view_bytes h a) ∧
    view_ok h' pcmData ∧
    dom h' = {[fresh (dom h)]} ∪ dom h ∧
    h' !! fresh (dom h) = Some (blob_bytes blob) ∧
    blob_type blob = "audio/wav"%string.
Proof.
  intros Hok. eexists _, _. split; [by apply createWavBlob_run|].
  set (wav := wav_header _ _ _ ++ _). cbn [blob_bytes blob_type].
  assert (∀ l, is_Some (h !! l) → <[fresh (dom h) := wav]> h !! l = h !! l) as Hframe.
  { intros l Hl. apply lookup_insert_ne. by apply fresh_loc_ne. }
  assert (∀ l, is_Some (h !! l) →
            bytes_at (<[fresh (dom h) := wav]> h) l = bytes_at h l) as Hbytes.
  { intros l Hl. unfold bytes_at. by rewrite Hframe. }
  split; [done|]. split.
  { intros a Ha. unfold view_bytes. by rewrite Hbytes. }
  split.
  { destruct Hok as [Halloc Hfit]. split; [by rewrite Hframe|by rewrite Hbytes]. }
  split; [apply dom_insert_L|]. split; [apply lookup_insert_eq|done].
Qed.

Lemma createWavBlob_frame_witness :
  ∃ blob h',
    createWavBlob tail_view 24000 1 shared_heap = (Ok blob, h') ∧
    view_bytes h' tail_view = [x03; x04].
Proof.
  destruct (createWavBlob_frame tail_view 24000 1 shared_heap)
    as (blob & h' & Hrun & _ & Hviews & _); [concrete_view_ok|].
  exists blob, h'. split; [exact Hrun|].
  rewrite Hviews; [reflexivity | by eexists].
Defined.

(** X4. When the values fit their fields, the header that
    [createWavBlob] writes is consistent as a RIFF/WAVE header: the chunk
    size is the length of the blob less 8 and is 36 more than the data
    size, the data size is the number of bytes after the header, the
    block align is the channel count times the bytes per sample, and the
    byte rate is the sample rate times the block align. *)
Theorem createWavBlob_riff_consistent (pcmData : Uint8Array)
    (sampleRate numChannels : Z) (h : Heap) :
  view_ok h pcmData →
  (0 ≤ sampleRate < 2 ^ 32)%Z → (0 ≤ numChannels)%Z →
  (numChannels * 2 < 2 ^ 16)%Z → (sampleRate * numChannels * 2 < 2 ^ 32)%Z →
  (36 + Z.of_nat (View.length pcmData) < 2 ^ 32)%Z →
  ∃ blob h',
    createWavBlob pcmData sampleRate numChannels h = (Ok blob, h') ∧
    let b := blob_bytes blob in
    let hdr := read_header b in
    (ChunkSize hdr = Z.of_nat (List.length b) - 8)%Z ∧
    (ChunkSize hdr = 36 + Subchunk2Size hdr)%Z ∧
    Subchunk2Size hdr = Z.of_nat (List.length (drop 44 b)) ∧
    (BlockAlign hdr = NumChannels hdr * (BitsPerSample hdr / 8))%Z ∧
    (ByteRate hdr = SampleRate hdr * BlockAlign hdr)%Z.
Proof.
  intros Hok Hsr Hch Hba Hbr Hsz. eexists _, _. split; [by apply createWavBlob_run|].
  cbn [blob_bytes]. cbv zeta. rewrite read_wav_header.
  cbn [ChunkSize Subchunk2Size BlockAlign NumChannels BitsPerSample ByteRate SampleRate].
  change (2 ^ 32)%Z with 4294967296%Z in *. change (2 ^ 16)%Z with 65536%Z in *.
  rewrite !Z.mod_small by lia.
  rewrite drop_app_length' by (by rewrite length_wav_header).
  rewrite length_app, length_wav_header, length_take_le by (destruct Hok; lia).
  change (16 / 8)%Z with 2%Z. repeat split; lia.
Qed.

Lemma createWavBlob_riff_consistent_witness :
  ∃ blob h',
    createWavBlob scenario_bytes 24000 1 scenario_heap = (Ok blob, h') ∧
    ChunkSize (read_header (blob_bytes blob))
    = (Z.of_nat (List.length (blob_bytes blob)) - 8)%Z.
Proof.
  destruct (createWavBlob_riff_consistent scenario_bytes 24000 1 scenario_heap)
    as (blob & h' & Hrun & Hsize & _);
    [concrete_view_ok | simpl; lia | lia | simpl; lia | simpl; lia | simpl; lia |].
  exists blob, h'. split; [exact Hrun|exact Hsize].
Defined.

(** ** The two uses of the decoded bytes in [App.tsx] *)

(** X5. The download path, lines 109-110 of [App.tsx]:
    [createWavBlob(decode(generatedAudio), 24000, 1)]. Text that [atob]
    rejects ends it with the InvalidCharacterError before anything is
    allocated. On any other text the blob is the header followed by
    exactly the decoded bytes, whatever their number: the array [decode]
    returns starts at byte offset 0. The header declares 24000 Hz,
    one channel, 16 bits, block align 2 and byte rate 48000, and no
    buffer that existed before is changed. *)
Theorem download_blob (generatedAudio : string) (h : Heap) :
  match forgiving_base64_decode (list_ascii_of_string generatedAudio) with
  | None =>
      (pcmData ← decode generatedAudio; createWavBlob pcmData 24000 1) h
      = (Throw InvalidCharacterError, h)
  | Some bs =>
      ∃ blob h',
        (pcmData ← decode generatedAudio; createWavBlob pcmData 24000 1) h
        = (Ok blob, h') ∧
        blob_bytes blob = wav_header (List.length bs) 24000 1 ++ bs ∧
        List.length (blob_bytes blob) = 44 + List.length bs ∧
        drop 44 (blob_bytes blob) = bs ∧
        blob_type blob = "audio/wav"%string ∧
        (∀ l, is_Some (h !! l) → h' !! l = h !! l) ∧
        ((36 + Z.of_nat (List.length bs) < 2 ^ 32)%Z →
         read_header (blob_bytes blob)
         = {| ChunkID := ascii_bytes "RIFF";
              ChunkSize := 36 + Z.of_nat (List.length bs);
              Format := ascii_bytes "WAVE";
              Subchunk1ID := ascii_bytes "fmt ";
              Subchunk1Size := 16;
              AudioFormat := 1;
              NumChannels := 1;
              SampleRate := 24000;
              ByteRate := 48000;
              BlockAlign := 2;
              BitsPerSample := 16;
              Subchunk2ID := ascii_bytes "data";
              Subchunk2Size := Z.of_nat (List.length bs) |})
  end.
Proof.
  destruct (forgiving_base64_decode _) as [bs|] eqn:E.
  - set (l := fresh (dom h)). set (h1 := <[l := bs]> h).
    assert (view_ok h1 (View.mk l 0 (List.length bs))) as Hok.
    { split; cbn [View.buffer View.byteOffset View.length].
      - subst h1. rewrite lookup_insert_eq. by eexists.
      - subst h1. by rewrite bytes_at_insert. }
    eexists _, _. split.
    { erewrite bind_Ok by (by apply decode_Some). by apply createWavBlob_run. }
    cbn [View.buffer View.length blob_bytes blob_type].
    fold l h1. subst h1. rewrite bytes_at_insert, firstn_all.
    split; [done|]. split; [by rewrite length_app, length_wav_header|].
    split; [by rewrite drop_app_length' by (by rewrite length_wav_header)|].
    split; [done|]. split.
    + intros l' Hl'. rewrite lookup_insert_ne.
      * apply lookup_insert_ne. by apply fresh_loc_ne.
      * apply fresh_loc_ne. rewrite lookup_insert_ne by (by apply fresh_loc_ne). done.
    + intros Hsz. rewrite read_wav_header.
      change (2 ^ 32)%Z with 4294967296%Z in Hsz.
      rewrite !Z.mod_small by lia. reflexivity.
  - rewrite bind_run. by rewrite decode_None.
Qed.

(** ** [decodeAudioData]: whole frames, degenerate requests, termination *)

Lemma pcm_channel_lookup (bs : list byte) (C frames c i : nat) :
  i < frames →
  pcm_channel bs C frames c !! i = Some (num_div (pcm_sample bs (i * C + c)) 32768).
Proof.
  intros Hi. unfold pcm_channel. by rewrite list_lookup_fmap, lookup_seq_lt.
Qed.

(** The closed form, when the context is asked for [N] whole frames. *)
Lemma decoded_frames (ctx : AudioContext) (bs : list byte)
    (sampleRate numChannels : option Z) (N : nat) :
  let sr := default 24000%Z sampleRate in
  let nc := default 1%Z numChannels in
  Conformant ctx →
  Nat.even (List.length bs) = true →
  (1 ≤ nc ≤ 32)%Z → (8000 ≤ sr ≤ 96000)%Z →
  (Z.of_nat (List.length bs / 2) / nc)%Z = Z.of_nat N →
  1 ≤ N → (Z.of_nat N < 2 ^ 32)%Z →
  decoded ctx bs sampleRate numChannels
  = Ok (mkAudioBuffer sr N
          ((λ c, pcm_channel bs (Z.to_nat nc) N c) <$> seq 0 (Z.to_nat nc))).
Proof.
  intros sr nc Hctx Heven Hnc Hsr Hq HN1 HN2.
  unfold decoded. cbv zeta. fold sr nc. rewrite Heven.
  destruct (frames_allocated (Z.of_nat (List.length bs / 2)) nc) as [Hn _]; [lia..|].
  rewrite Hq in Hn. change (2 ^ 32)%Z with 4294967296%Z in HN2.
  rewrite Z.mod_small in Hn by lia.
  destruct (createBuffer_accepts ctx Hctx nc
              (num_div (Some (Z.of_nat (List.length bs / 2))) nc) sr ∅) as [b0 Hb0];
    [lia|lia|done|].
  by rewrite Hb0, Hn, Nat2Z.id.
Qed.

(** The closed form, when there is no whole frame to ask for. *)
Lemma decoded_no_frame (ctx : AudioContext) (bs : list byte)
    (sampleRate numChannels : option Z) :
  let nc := default 1%Z numChannels in
  Conformant ctx →
  Nat.even (List.length bs) = true →
  (nc ≤ 0 ∨ Z.of_nat (List.length bs / 2) < nc)%Z →
  decoded ctx bs sampleRate numChannels = Throw NotSupportedError.
Proof.
  intros nc Hctx Heven Hfew. unfold decoded. cbv zeta. fold nc. rewrite Heven.
  rewrite (createBuffer_rejects ctx Hctx); [done|].
  destruct (decide (nc ≤ 0)%Z) as [Hnc|Hnc]; [by left|right; left].
  destruct (frames_allocated (Z.of_nat (List.length bs / 2)) nc) as [Hn _]; [lia..|].
  rewrite Hn, Z.div_small by lia. done.
Qed.

Lemma half_of_double (n : nat) : 2 * n / 2 = n.
Proof. by rewrite Nat.mul_comm, Nat.div_mul. Qed.

(** X6. For input of whole frames nothing is dropped. Let the buffer
    under the input hold 2 * numChannels * N bytes, with a conformant
    context, 1 to 32 channels, a sample rate of 8000 to 96000 and
    1 <= N < 2^32. Then the call returns a buffer of the requested sample
    rate with numChannels channels of N frames, the heap is unchanged,
    and every one of the numChannels * N samples of the input is in it:
    the sample at index k, normalised, is frame k / numChannels of channel
    k mod numChannels. *)
Theorem decodeAudioData_whole_frames data ctx sampleRate numChannels (h : Heap)
    (N : nat) :
  let bs := bytes_at h (View.buffer data) in
  let sr := default 24000%Z sampleRate in
  let nc := default 1%Z numChannels in
  let C := Z.to_nat nc in
  Conformant ctx →
  (1 ≤ nc ≤ 32)%Z → (8000 ≤ sr ≤ 96000)%Z →
  List.length bs = 2 * C * N → 1 ≤ N → (Z.of_nat N < 2 ^ 32)%Z →
  ∃ buffer,
    decodeAudioData data ctx sampleRate numChannels h = (Ok buffer, h) ∧
    ab_sampleRate buffer = sr ∧
    ab_length buffer = N ∧
    List.length (ab_channels buffer) = C ∧
    ∀ k, k < C * N →
      ∃ (v : Z) (samples : list number),
        pcm_sample bs k = Some v ∧
        ab_channels buffer !! (k mod C) = Some samples ∧
        List.length samples = N ∧
        samples !! (k / C) = Some (Finite (Qred (v # 32768))).
Proof.
  intros bs sr nc C Hctx Hnc Hsr Hlen HN1 HN2.
  assert (List.length bs = 2 * (C * N)) as Hlen' by lia.
  assert (List.length bs / 2 = C * N) as Hhalf by (rewrite Hlen'; apply half_of_double).
  assert (0 < C) as HC by (subst C; lia).
  eexists. split.
  { rewrite decodeAudioData_decoded by done. f_equal. fold bs.
    apply (decoded_frames ctx bs sampleRate numChannels N); try done.
    - rewrite Hlen', Nat.even_mul. done.
    - rewrite Hhalf. fold nc. replace nc with (Z.of_nat C) by (subst C; lia).
      rewrite <- Nat2Z.inj_div. f_equal. symmetry. apply (Nat.div_unique _ _ _ 0); lia. }
  cbn [ab_sampleRate ab_length ab_channels]. fold nc C.
  split; [done|]. split; [done|]. split; [by rewrite length_fmap, length_seq|].
  intros k Hk.
  destruct (pcm_sample_defined bs k ltac:(lia)) as [v Hv].
  assert (k mod C < C) as Hc by (apply Nat.mod_upper_bound; lia).
  assert (k / C < N) as Hi by (apply Nat.Div0.div_lt_upper_bound; lia).
  exists v, (pcm_channel bs C N (k mod C)).
  split; [done|]. split.
  { rewrite list_lookup_fmap, lookup_seq_lt by done. done. }
  split; [unfold pcm_channel; by rewrite length_fmap, length_seq|].
  rewrite pcm_channel_lookup by done.
  replace (k / C * C + k mod C) with k
    by (rewrite (Nat.div_mod_eq k C) at 1; lia).
  by rewrite Hv, num_div_normalise.
Qed.

Lemma decodeAudioData_whole_frames_witness :
  ∃ buffer,
    decodeAudioData scenario_bytes webAudio None (Some 2%Z) scenario_heap
    = (Ok buffer, scenario_heap) ∧
    ab_length buffer = 1.
Proof.
  destruct (decodeAudioData_whole_frames scenario_bytes webAudio None (Some 2%Z)
              scenario_heap 1 webAudio_conformant)
    as (buffer & Hrun & _ & Hlen & _);
    [simpl; lia | simpl; lia | reflexivity | lia | simpl; lia |].
  exists buffer. split; [exact Hrun|exact Hlen].
Defined.

(** X7. A request without a whole frame is refused by the context and
    never answered with an empty buffer: with a conformant context and a
    buffer of even length under the input, the call throws a
    NotSupportedError when the channel count is zero or negative, when
    the input is empty, and in general when the input has fewer than
    numChannels samples. The heap is unchanged. *)
Theorem decodeAudioData_no_frame data ctx sampleRate numChannels (h : Heap) :
  let bs := bytes_at h (View.buffer data) in
  let nc := default 1%Z numChannels in
  Conformant ctx →
  Nat.even (List.length bs) = true →
  (nc ≤ 0 ∨ bs = [] ∨ Z.of_nat (List.length bs) < 2 * nc)%Z →
  decodeAudioData data ctx sampleRate numChannels h = (Throw NotSupportedError, h).
Proof.
  intros bs nc Hctx Heven Hfew.
  rewrite decodeAudioData_decoded by done. f_equal. fold bs.
  apply decoded_no_frame; [done|done|]. fold nc.
  destruct (decide (nc ≤ 0)%Z) as [Hnc|Hnc]; [by left|right].
  apply Nat.even_spec in Heven as [m Hm]. rewrite Hm, half_of_double.
  destruct Hfew as [?|[Hnil|Hlt]]; [lia| |lia].
  rewrite Hnil in Hm. cbn in Hm. lia.
Qed.

Lemma decodeAudioData_no_frame_witness :
  decodeAudioData empty_bytes webAudio None None empty_heap
  = (Throw NotSupportedError, empty_heap).
Proof.
  apply (decodeAudioData_no_frame empty_bytes webAudio None None empty_heap
           webAudio_conformant); [reflexivity|].
  right. left. reflexivity.
Defined.

Lemma for_loop_halts {S} (body : nat → S → M S) :
  (∀ i s h, (body i s h).1 ≠ Diverge) →
  ∀ count start s h, (for_loop start count body s h).1 ≠ Diverge.
Proof.
  intros Hbody. induction count as [|count IH]; intros start s h; [done|].
  cbn [for_loop]. rewrite bind_run.
  pose proof (Hbody start s h) as Hstep.
  destruct (body start s h) as [[s'| |] h1]; [apply IH|done|done].
Qed.

(** X8. The call always comes to an end, whatever the context does
    otherwise: when [createBuffer] itself returns or throws, so does
    [decodeAudioData], for every input, sample rate and channel count.
    The inner loop is bounded by [frameCount], which is positive infinity
    when the channel count is 0; then the outer loop has no channel to
    run it for. *)
Theorem decodeAudioData_halts data ctx sampleRate numChannels (h : Heap) :
  (∀ nc len sr h0, (createBuffer ctx nc len sr h0).1 ≠ Diverge) →
  (decodeAudioData data ctx sampleRate numChannels h).1 ≠ Diverge.
Proof.
  intros Hctx. unfold decodeAudioData. cbv zeta.
  set (sr := default 24000%Z sampleRate). set (nc := default 1%Z numChannels).
  rewrite bind_run. unfold Int16Array_of_buffer. cbv zeta.
  destruct (Nat.even _); [|done].
  rewrite bind_run.
  match goal with |- context [createBuffer ctx nc ?fc sr h] =>
    pose proof (Hctx nc fc sr h) as Hcb;
    destruct (createBuffer ctx nc fc sr h) as [[b0| |] h1]; [|done|done]
  end.
  destruct (decide (nc ≤ 0)%Z) as [Hnc|Hnc].
  { replace (Z.to_nat nc) with 0 by lia. done. }
  apply for_loop_halts. intros channel b h2.
  rewrite bind_run. unfold getChannelData.
  case_decide; [|done]. cbn [ret mret M_ret].
  rewrite num_div_nonzero by lia. cbn [for_below].
  apply for_loop_halts. intros i b' h3. done.
Qed.

Lemma decodeAudioData_halts_witness :
  (decodeAudioData ragged_bytes webAudio None (Some 0%Z) ragged_heap).1 ≠ Diverge.
Proof.
  apply (decodeAudioData_halts ragged_bytes webAudio None (Some 0%Z) ragged_heap).
  intros nc len sr h0. apply (createBuffer_halts webAudio webAudio_conformant).
Defined.

Lemma normalise_inj (v v' : Z) : normalise v = normalise v' → v = v'.
Proof.
  unfold normalise. intros E. injection E as E.
  apply Qred_eq_iff in E. unfold Qeq in E. simpl in E. lia.
Qed.





(** X10. The playback path, lines 79-80 of [App.tsx]:
    [decodeAudioData(decode(base64Audio), ctx)] with the default sample
    rate and channel count and a conformant context. Text that [atob]
    rejects ends it with the InvalidCharacterError and an unchanged heap.
    Otherwise the decoded bytes stay behind in a fresh buffer, and: an odd
    number of them is a RangeError, none at all a NotSupportedError, and
    2 * N of them, 1 <= N < 2^32, give a buffer of 24000 Hz with one
    channel of N samples, sample k being the k-th little-endian 16-bit
    value of the bytes divided by 32768. *)
Theorem playback_buffer (base64Audio : string) (ctx : AudioContext) (h : Heap) :
  Conformant ctx →
  let run := (audioData ← decode base64Audio; decodeAudioData audioData ctx None None) h in
  match forgiving_base64_decode (list_ascii_of_string base64Audio) with
  | None => run = (Throw InvalidCharacterError, h)
  | Some bs =>
      let h' := <[fresh (dom h) := bs]> h in
      (Nat.even (List.length bs) = false → run = (Throw RangeError, h')) ∧
      (bs = [] → run = (Throw NotSupportedError, h')) ∧
      (∀ N, List.length bs = 2 * N → 1 ≤ N → (Z.of_nat N < 2 ^ 32)%Z →
         ∃ samples,
           run = (Ok (mkAudioBuffer 24000 N [samples]), h') ∧
           List.length samples = N ∧
           ∀ k, k < N →
             ∃ v, pcm_sample bs k = Some v ∧ (-32768 ≤ v ≤ 32767)%Z ∧
                  samples !! k = Some (Finite (Qred (v # 32768))))
  end.
Proof.
  intros Hctx run. subst run.
  destruct (forgiving_base64_decode _) as [bs|] eqn:E.
  - intros h'. erewrite bind_Ok by (by apply decode_Some). fold h'.
    assert (bytes_at h' (View.buffer (View.mk (fresh (dom h)) 0 (List.length bs))) = bs)
      as Hbs by (subst h'; apply bytes_at_insert).
    split; [|split].
    + intros Hodd. apply decodeAudioData_odd. by rewrite Hbs.
    + intros Hnil. rewrite decodeAudioData_decoded by done. f_equal. rewrite Hbs.
      apply decoded_no_frame; [done|by rewrite Hnil|]. right. rewrite Hnil. cbn. lia.
    + intros N Hlen HN1 HN2. exists (pcm_channel bs 1 N 0). split; [|split].
      * rewrite decodeAudioData_decoded by done. f_equal. rewrite Hbs.
        rewrite (decoded_frames ctx bs None None N); try done; cbn [default]; try lia.
        -- rewrite Hlen, Nat.even_mul. done.
        -- rewrite Hlen, half_of_double. apply Z.div_1_r.
      * unfold pcm_channel. by rewrite length_fmap, length_seq.
      * intros k Hk. destruct (pcm_sample_defined bs k ltac:(lia)) as [v Hv].
        exists v. split; [done|]. split; [by apply (pcm_sample_range bs k)|].
        rewrite pcm_channel_lookup by done.
        replace (k * 1 + 0) with k by lia.
        by rewrite Hv, num_div_normalise.
  - rewrite bind_run. by rewrite decode_None.
Qed.

Lemma playback_buffer_witness :
  ∃ samples,
    (audioData ← decode "AAD/fw=="; decodeAudioData audioData webAudio None None) ∅
    = (Ok (mkAudioBuffer 24000 2 [samples]), {[ 0 := [x00; x00; xff; x7f] ]}) ∧
    samples !! 1 = Some (Finite (32767 # 32768)).
Proof.
  pose proof (playback_buffer "AAD/fw==" webAudio ∅ webAudio_conformant) as H.
  cbv zeta in H.
  change (forgiving_base64_decode (list_ascii_of_string "AAD/fw=="))
    with (Some [x00; x00; xff; x7f]) in H.
  cbv beta iota in H.
  destruct H as (_ & _ & H).
  destruct (H 2 eq_refl ltac:(lia) ltac:(lia)) as (samples & Hrun & _ & Hk).
  exists samples. split; [exact Hrun|].
  destruct (Hk 1 ltac:(lia)) as (v & Hv & _ & Hs).
  vm_compute in Hv. injection Hv as <-. exact Hs.
Defined.
